(** * GoDe: audio-reactive palette core

    A shallow embedding of the numeric core of the GoDe extension and the
    properties of it that its specification states.

    The embedded sources are
    - [src/audio/AudioPlayerProvider.ts]: the mel filterbank, the feature
      extractor and the beat detector (the script of the audio web view);
    - [src/audio/ReactiveThemeController.ts]: the reactive mapper;
    - [src/colors/groups.ts], [src/colors/manipulation.ts]: the colour
      toolbox.

    JavaScript numbers are IEEE-754 binary64 values.  The number models,
    each where it fits the code:
    - the filterbank application, the feature extractor and the beat
      detector use only [+ - * /], comparisons and [Math.sqrt]; they are
      embedded over the kernel's binary64 floats, so [0/0] is [nan] as in the
      engine.  The filterbank construction is embedded over them too
      ([MelFloat]), with [Math.log10] and [Math.pow] as parameters: the
      language standard fixes their special values and leaves the other
      results to the engine;
    - what holds of the filterbank construction and of the hue interpolation
      for every input is proved with each operation followed by a rounding
      function ([MelRounded], [ColorOpsRounded]), of which only what
      rounding to nearest guarantees is assumed: it is monotone, exact on
      the integers it can hold, and within the relative error 2^-53;
    - the number of filters depends on no value: it is stated over the real
      numbers ([Mel]);
    - the colour algebra is embedded over exact rationals ([Q]); what is
      stated of it are counts, the shape of the colour texts and the values
      that no rounding of the last bit moves. *)

From Stdlib Require Import String Ascii.
From Stdlib Require Import ZArith List Bool Lia.
From Stdlib Require Import Reals.
From Stdlib Require Import Floats Uint63.
From Stdlib Require Import QArith Qround Qminmax Qabs.
From Stdlib Require Import Psatz.
Import ListNotations.

Set Warnings "-inexact-float".

(** ** The mel filterbank ([createMelFilterbank], [hzToMel], [melToHz]) *)

Module Mel.

(** A triangular filter: three FFT-bin indices. *)
Record MelFilter : Set := mkFilter {
  leftBin : Z;
  centerBin : Z;
  rightBin : Z
}.

Section Construction.
Local Open Scope R_scope.

(** [Math.log10]. *)
Definition log10 (x : R) : R := ln x / ln 10.

(** [Math.pow(10, y)]. *)
Definition pow10 (y : R) : R := Rpower 10 y.

(** [Math.floor]. *)
Definition floor (x : R) : Z := Int_part x.

Definition hzToMel (hz : R) : R := 2595 * log10 (1 + hz / 700).

Definition melToHz (mel : R) : R := 700 * (pow10 (mel / 2595) - 1).

(** The body of the loop of [createMelFilterbank] at index [i]. *)
Definition melFilterAt (minMel melStep : R) (fftSize : Z) (sampleRate : R)
    (i : nat) : MelFilter :=
  let leftMel := minMel + INR i * melStep in
  let centerMel := minMel + (INR i + 1) * melStep in
  let rightMel := minMel + (INR i + 2) * melStep in
  let leftHz := melToHz leftMel in
  let centerHz := melToHz centerMel in
  let rightHz := melToHz rightMel in
  {| leftBin := floor (leftHz / (sampleRate / IZR fftSize));
     centerBin := floor (centerHz / (sampleRate / IZR fftSize));
     rightBin := floor (rightHz / (sampleRate / IZR fftSize)) |}.

(** [createMelFilterbank(numFilters, fftSize, sampleRate)]: the loop
    [for (i = 0; i < numFilters; i++)] pushes one filter per index; the two
    sizes are integers. *)
Definition createMelFilterbank (numFilters fftSize : Z) (sampleRate : R)
    : list MelFilter :=
  let minMel := hzToMel 0 in
  let maxMel := hzToMel (sampleRate / 2) in
  let melStep := (maxMel - minMel) / IZR (numFilters + 1) in
  map (melFilterAt minMel melStep fftSize sampleRate)
      (seq 0 (Z.to_nat numFilters)).

End Construction.

End Mel.

(** ** The mel filterbank, rounding included

    The same construction with the result of every operation rounded: [rnd]
    stands for rounding to the nearest binary64 number, [log10] and [pow]
    for [Math.log10] and [Math.pow], whose results are numbers already.  The
    loop index and [numFilters + 1] are integers and exact.  The model has
    no [nan]: the bins are integers as long as the bin width
    [sampleRate / fftSize] is not zero, which the theorems assume. *)

Module MelRounded.
Import Mel.
Local Open Scope R_scope.

Section Engine.
Variable rnd : R -> R.
Variable log10 : R -> R.
Variable pow : R -> R -> R.

Definition hzToMel (hz : R) : R :=
  rnd (2595 * log10 (rnd (1 + rnd (hz / 700)))).

Definition melToHz (mel : R) : R :=
  rnd (700 * rnd (pow 10 (rnd (mel / 2595)) - 1)).

(** The body of the loop of [createMelFilterbank] at index [i]. *)
Definition melFilterAt (minMel melStep : R) (fftSize : Z) (sampleRate : R)
    (i : nat) : MelFilter :=
  let leftMel := rnd (minMel + rnd (INR i * melStep)) in
  let centerMel := rnd (minMel + rnd ((INR i + 1) * melStep)) in
  let rightMel := rnd (minMel + rnd ((INR i + 2) * melStep)) in
  let leftHz := melToHz leftMel in
  let centerHz := melToHz centerMel in
  let rightHz := melToHz rightMel in
  {| leftBin := floor (rnd (leftHz / rnd (sampleRate / IZR fftSize)));
     centerBin := floor (rnd (centerHz / rnd (sampleRate / IZR fftSize)));
     rightBin := floor (rnd (rightHz / rnd (sampleRate / IZR fftSize))) |}.

Definition createMelFilterbank (numFilters fftSize : Z) (sampleRate : R)
    : list MelFilter :=
  let minMel := hzToMel 0 in
  let maxMel := hzToMel (rnd (sampleRate / 2)) in
  let melStep := rnd (rnd (maxMel - minMel) / IZR (numFilters + 1)) in
  map (melFilterAt minMel melStep fftSize sampleRate)
      (seq 0 (Z.to_nat numFilters)).

(** What is assumed of the three functions: rounding is monotone and leaves
    0 and 1 as they are; [Math.log10] is non-decreasing on the positive
    numbers and [Math.pow(10, y)] is non-decreasing in [y]; and the two
    special values the standard fixes, [Math.log10(1) = 0] and
    [Math.pow(x, 0) = 1]. *)
Record monotone : Prop := {
  rnd_mono : forall x y, x <= y -> rnd x <= rnd y;
  rnd_0 : rnd 0 = 0;
  rnd_1 : rnd 1 = 1;
  log10_mono : forall x y, 0 < x -> x <= y -> log10 x <= log10 y;
  log10_1 : log10 1 = 0;
  pow_mono : forall x y, x <= y -> pow 10 x <= pow 10 y;
  pow_0 : pow 10 0 = 1
}.

End Engine.

(** A rounding of this kind: to the nearest multiple of 2^-1074, the spacing
    of the smallest binary64 numbers; and an engine that rounds the exact
    logarithm and the exact power so. *)
Definition toGrid (x : R) : R :=
  IZR (floor (x * IZR (2 ^ 1074) + / 2)) / IZR (2 ^ 1074).

Definition log10Grid (x : R) : R := toGrid (log10 x).

Definition powGrid (b y : R) : R := toGrid (Rpower b y).

End MelRounded.

(** ** The colour library

    The colour toolbox and the reactive mapper compute every colour through
    the tinycolor2 package, a dependency that lives outside the repository.
    This module embeds the operations of it they call, after the algorithms
    the package documents, over exact rationals.  A colour enters as the
    object its text parses to ([colorInput]); the text syntax itself is not
    modelled. *)

Module Tinycolor.
Local Open Scope Q_scope.

Definition Qltb (x y : Q) : bool := negb (Qle_bool y x).
Infix "<?" := Qltb (at level 70, no associativity) : Q_scope.
Infix "<=?" := Qle_bool (at level 70, no associativity) : Q_scope.
Infix "=?" := Qeq_bool (at level 70, no associativity) : Q_scope.

(** [Math.round]: to the nearest integer, halves up. *)
Definition mathRound (x : Q) : Z := Qfloor (x + (1 # 2)).

(** The remainder [x % m] of JavaScript: it has the sign of [x]. *)
Definition jsmod (x m : Q) : Q :=
  let q := x / m in
  let t := if q <? 0 then Qceiling q else Qfloor q in
  x - m * inject_Z t.

(** [clamp01(val) = Math.min(1, Math.max(0, val))]. *)
Definition clamp01 (val : Q) : Q := Qmin 1 (Qmax 0 val).

(** A channel given as a number, or as a text ending in a percent sign. *)
Inductive cssUnit : Set :=
| Num (n : Q)
| Percent (n : Q).

(** [bound01(n, max)]: a percentage is first cut to two decimals
    ([parseInt(n * max, 10) / 100], the integer part for the arguments from
    1e-6 up that print without an exponent). *)
Definition bound01 (n : cssUnit) (max : Q) : Q :=
  let n :=
    match n with
    | Num v => Qmin max (Qmax 0 v)
    | Percent v =>
        inject_Z (Qfloor (Qmin max (Qmax 0 v) * max)) / 100
    end in
  if Qabs (n - max) <? (1 # 1000000) then 1 else jsmod n max / max.

(** [convertToPercentage(n)]: a number not above 1 is a fraction. *)
Definition convertToPercentage (n : cssUnit) : cssUnit :=
  match n with
  | Num v => if v <=? 1 then Percent (v * 100) else Num v
  | Percent v => Percent v
  end.

(** [boundAlpha(a)]. *)
Definition boundAlpha (a : Q) : Q :=
  if (a <? 0) || (1 <? a) then 1 else a.

Definition hue2rgb (p q t : Q) : Q :=
  let t := if t <? 0 then t + 1 else t in
  let t := if 1 <? t then t - 1 else t in
  if t <? 1 / 6 then p + (q - p) * 6 * t
  else if t <? 1 / 2 then q
  else if t <? 2 / 3 then p + (q - p) * (2 / 3 - t) * 6
  else p.

(** [hslToRgb(h, s, l)]: channels in [0, 255]. *)
Definition hslToRgb (h s l : cssUnit) : Q * Q * Q :=
  let h := bound01 h 360 in
  let s := bound01 s 100 in
  let l := bound01 l 100 in
  if s =? 0 then (l * 255, l * 255, l * 255)
  else
    let q := if l <? 1 / 2 then l * (1 + s) else l + s - l * s in
    let p := 2 * l - q in
    (hue2rgb p q (h + 1 / 3) * 255, hue2rgb p q h * 255,
     hue2rgb p q (h - 1 / 3) * 255).

(** [rgbToHsl(r, g, b)]: hue, saturation and lightness in [0, 1]. *)
Definition rgbToHsl (r g b : Q) : Q * Q * Q :=
  let r := bound01 (Num r) 255 in
  let g := bound01 (Num g) 255 in
  let b := bound01 (Num b) 255 in
  let max := Qmax (Qmax r g) b in
  let min := Qmin (Qmin r g) b in
  let l := (max + min) / 2 in
  if max =? min then (0, 0, l)
  else
    let d := max - min in
    let s := if 1 / 2 <? l then d / (2 - max - min) else d / (max + min) in
    let h :=
      if max =? r then (g - b) / d + (if g <? b then 6 else 0)
      else if max =? g then (b - r) / d + 2
      else (r - g) / d + 4 in
    (h / 6, s, l).

(** [rgbToRgb(r, g, b)]. *)
Definition rgbToRgb (r g b : Q) : Q * Q * Q :=
  (bound01 (Num r) 255 * 255, bound01 (Num g) 255 * 255,
   bound01 (Num b) 255 * 255).

(** The text format a colour remembers; [clone] prints the colour in it. *)
Inductive format : Set := FmtHex | FmtRgb | FmtHsl.

(** What a colour text or a colour object parses to. *)
Inductive colorInput : Set :=
| RgbInput (fmt : format) (r g b a : Q)
| HslInput (h : Q) (s l : cssUnit) (a : Q)
| NoColor.

(** A colour object. *)
Record color : Set := mkColor {
  _r : Q;
  _g : Q;
  _b : Q;
  _a : Q;
  _format : format;
  _ok : bool
}.

(** A channel as the constructor keeps it: clamped into [0, 255], and
    rounded when below 1. *)
Definition channel (c : Q) : Q :=
  let c := Qmin 255 (Qmax c 0) in
  if c <? 1 then inject_Z (mathRound c) else c.

(** The constructor [tinycolor(input)] ([inputToRGB] and the rounding of
    channels below 1). *)
Definition tinycolor (input : colorInput) : color :=
  let '(rgb, a, fmt, ok) :=
    match input with
    | RgbInput fmt r g b a => (rgbToRgb r g b, a, fmt, true)
    | HslInput h s l a =>
        (hslToRgb (Num h) (convertToPercentage s) (convertToPercentage l),
         a, FmtHsl, true)
    | NoColor => ((0, 0, 0), 1, FmtHex, false)
    end in
  let '(r, g, b) := rgb in
  {| _r := channel r; _g := channel g; _b := channel b; _a := boundAlpha a;
     _format := fmt; _ok := ok |}.

Definition isValid (c : color) : bool := _ok c.

(** Hue in degrees, saturation, lightness, alpha. *)
Record hsla : Set := mkHsla { hsl_h : Q; hsl_s : Q; hsl_l : Q; hsl_a : Q }.

Definition toHsl (c : color) : hsla :=
  let '(h, s, l) := rgbToHsl (_r c) (_g c) (_b c) in
  {| hsl_h := h * 360; hsl_s := s; hsl_l := l; hsl_a := _a c |}.

(** [tinycolor(hsl)] for an object of numbers. *)
Definition ofHsl (hsl : hsla) : color :=
  tinycolor (HslInput (hsl_h hsl) (Num (hsl_s hsl)) (Num (hsl_l hsl))
                      (hsl_a hsl)).

Record rgba : Set := mkRgba { rgb_r : Z; rgb_g : Z; rgb_b : Z; rgb_a : Q }.

Definition toRgb (c : color) : rgba :=
  {| rgb_r := mathRound (_r c); rgb_g := mathRound (_g c);
     rgb_b := mathRound (_b c); rgb_a := _a c |}.

Definition hexDigit (d : Z) : ascii :=
  match d with
  | 0%Z => "0" | 1%Z => "1" | 2%Z => "2" | 3%Z => "3" | 4%Z => "4"
  | 5%Z => "5" | 6%Z => "6" | 7%Z => "7" | 8%Z => "8" | 9%Z => "9"
  | 10%Z => "a" | 11%Z => "b" | 12%Z => "c" | 13%Z => "d" | 14%Z => "e"
  | _ => "f"
  end%char.

Fixpoint hexDigits (fuel : nat) (n : Z) (acc : string) : string :=
  let acc := String (hexDigit (n mod 16)) acc in
  match fuel with
  | O => acc
  | S fuel => if (n / 16 =? 0)%Z then acc else hexDigits fuel (n / 16) acc
  end.

(** [n.toString(16)] for an integer. *)
Definition toString16 (n : Z) : string :=
  if (n <? 0)%Z
  then String "-" (hexDigits (Z.to_nat (Z.log2 (- n))) (- n) EmptyString)
  else hexDigits (Z.to_nat (Z.log2 n)) n EmptyString.

Definition pad2 (c : string) : string :=
  if (String.length c =? 1)%nat then String "0" c else c.

(** [toHexString()]: the six-digit form; alpha is not printed. *)
Definition toHexString (c : color) : string :=
  String "#"
    (pad2 (toString16 (mathRound (_r c)))
     ++ pad2 (toString16 (mathRound (_g c)))
     ++ pad2 (toString16 (mathRound (_b c))))%string.

Definition setAlpha (c : color) (value : Q) : color :=
  {| _r := _r c; _g := _g c; _b := _b c; _a := boundAlpha value;
     _format := _format c; _ok := _ok c |}.

(** [this._roundA]. *)
Definition roundA (c : color) : Q := inject_Z (mathRound (100 * _a c)) / 100.

(** [clone()] is [tinycolor(this.toString())]: the colour is printed in its
    format, with rounded components, and parsed again. *)
Definition clone (c : color) : color :=
  let rgbText (fmt : format) :=
    RgbInput fmt (inject_Z (mathRound (_r c))) (inject_Z (mathRound (_g c)))
             (inject_Z (mathRound (_b c))) in
  match _format c with
  | FmtHsl =>
      let '(h, s, l) := rgbToHsl (_r c) (_g c) (_b c) in
      tinycolor (HslInput (inject_Z (mathRound (h * 360)))
                          (Percent (inject_Z (mathRound (s * 100))))
                          (Percent (inject_Z (mathRound (l * 100))))
                          (if _a c =? 1 then 1 else roundA c))
  | FmtRgb => tinycolor (rgbText FmtRgb (if _a c =? 1 then 1 else roundA c))
  | FmtHex =>
      if _a c <? 1 then tinycolor (rgbText FmtRgb (roundA c))
      else tinycolor (rgbText FmtHex 1)
  end.

(** [_applyModification(fn, args)]: the channels and the alpha of the result
    replace those of [this]. *)
Definition applyModification (fn : color -> color) (this : color) : color :=
  let result := fn this in
  setAlpha {| _r := _r result; _g := _g result; _b := _b result;
              _a := _a this; _format := _format this; _ok := _ok this |}
           (_a result).

Definition spin (amount : Q) : color -> color :=
  applyModification (fun c =>
    let hsl := toHsl c in
    let hue := jsmod (hsl_h hsl + amount) 360 in
    ofHsl {| hsl_h := if hue <? 0 then 360 + hue else hue;
             hsl_s := hsl_s hsl; hsl_l := hsl_l hsl; hsl_a := hsl_a hsl |}).

Definition lighten (amount : Q) : color -> color :=
  applyModification (fun c =>
    let hsl := toHsl c in
    ofHsl {| hsl_h := hsl_h hsl; hsl_s := hsl_s hsl;
             hsl_l := clamp01 (hsl_l hsl + amount / 100);
             hsl_a := hsl_a hsl |}).

Definition darken (amount : Q) : color -> color :=
  applyModification (fun c =>
    let hsl := toHsl c in
    ofHsl {| hsl_h := hsl_h hsl; hsl_s := hsl_s hsl;
             hsl_l := clamp01 (hsl_l hsl - amount / 100);
             hsl_a := hsl_a hsl |}).

Definition saturate (amount : Q) : color -> color :=
  applyModification (fun c =>
    let hsl := toHsl c in
    ofHsl {| hsl_h := hsl_h hsl;
             hsl_s := clamp01 (hsl_s hsl + amount / 100);
             hsl_l := hsl_l hsl; hsl_a := hsl_a hsl |}).

(** [tinycolor.mix(color1, color2, amount)]. *)
Definition mix (color1 color2 : color) (amount : Q) : color :=
  let rgb1 := toRgb color1 in
  let rgb2 := toRgb color2 in
  let p := amount / 100 in
  let blend (x1 x2 : Q) : Q := (x2 - x1) * p + x1 in
  tinycolor
    (RgbInput FmtRgb
       (blend (inject_Z (rgb_r rgb1)) (inject_Z (rgb_r rgb2)))
       (blend (inject_Z (rgb_g rgb1)) (inject_Z (rgb_g rgb2)))
       (blend (inject_Z (rgb_b rgb1)) (inject_Z (rgb_b rgb2)))
       (blend (rgb_a rgb1) (rgb_a rgb2))).

(** The hues [analogous] walks through, [results] more after a start hue,
    [part] degrees apart. *)
Fixpoint analogousHues (results : nat) (part h : Q) : list Q :=
  match results with
  | O => []
  | S results =>
      let h := jsmod (h + part) 360 in h :: analogousHues results part h
  end.

(** [analogous()] with its default arguments (6 results, 30 slices): the
    colour itself, then five colours 12 degrees apart, from 24 degrees below
    its hue to 24 degrees above. *)
Definition analogous (c : color) : list color :=
  let hsl := toHsl c in
  let part := 360 / 30 in
  let start := jsmod (hsl_h hsl - 36 + 720) 360 in
  c :: map (fun h => ofHsl {| hsl_h := h; hsl_s := hsl_s hsl;
                              hsl_l := hsl_l hsl; hsl_a := hsl_a hsl |})
           (analogousHues 5 part start).

(** A colour whose channels lie within [0, 255]. *)
Definition inGamut (c : color) : Prop :=
  0 <= _r c <= 255 /\ 0 <= _g c <= 255 /\ 0 <= _b c <= 255.

(** A well-formed colour text: [#] and six or eight hexadecimal digits. *)
Definition isHexDigit (c : ascii) : bool :=
  let n := N_of_ascii c in
  ((48 <=? n) && (n <=? 57) || (97 <=? n) && (n <=? 102))%N.

Definition isHexColor (s : string) : bool :=
  match s with
  | String "#" digits =>
      ((String.length digits =? 6) || (String.length digits =? 8))%nat
      && forallb isHexDigit (list_ascii_of_string digits)
  | _ => false
  end.

(** The two digits of a channel value are hexadecimal digits. *)
Definition isHexByte (s : string) : bool :=
  match s with
  | String a (String b EmptyString) => isHexDigit a && isHexDigit b
  | _ => false
  end.

End Tinycolor.

(** ** The colour toolbox

    [AdvancedColorOps] of [src/colors/groups.ts] and [getAnalogous] of
    [src/colors/manipulation.ts]. *)

Module ColorOps.
Import Tinycolor.
Local Open Scope Q_scope.

Inductive harmonyType : Set :=
| Analogous | Complementary | Triadic | Tetradic | SplitComplementary | Square.

Record ColorHarmony : Set := mkHarmony {
  name : string;
  colors : list string
}.

(** [generateHarmony(baseColor, type)]. *)
Definition generateHarmony (baseColor : colorInput) (type : harmonyType)
    : option ColorHarmony :=
  let color := tinycolor baseColor in
  if negb (isValid color) then None
  else Some
    match type with
    | Analogous =>
        {| name := "Analogous Harmony";
           colors := [ toHexString color;
                       toHexString (spin 30 (clone color));
                       toHexString (spin (-30) (clone color));
                       toHexString (spin 60 (clone color));
                       toHexString (spin (-60) (clone color)) ] |}
    | Complementary =>
        {| name := "Complementary Harmony";
           colors := [ toHexString color;
                       toHexString (spin 180 (clone color)) ] |}
    | Triadic =>
        {| name := "Triadic Harmony";
           colors := [ toHexString color;
                       toHexString (spin 120 (clone color));
                       toHexString (spin 240 (clone color)) ] |}
    | Tetradic =>
        {| name := "Tetradic Harmony";
           colors := [ toHexString color;
                       toHexString (spin 90 (clone color));
                       toHexString (spin 180 (clone color));
                       toHexString (spin 270 (clone color)) ] |}
    | SplitComplementary =>
        {| name := "Split Complementary Harmony";
           colors := [ toHexString color;
                       toHexString (spin 150 (clone color));
                       toHexString (spin 210 (clone color)) ] |}
    | Square =>
        {| name := "Square Harmony";
           colors := [ toHexString color;
                       toHexString (spin 90 (clone color));
                       toHexString (spin 180 (clone color));
                       toHexString (spin 270 (clone color)) ] |}
    end.

(** [getAnalogous(color)] of [ColorManipulator]. *)
Definition getAnalogous (color : colorInput) : list string :=
  map toHexString (analogous (tinycolor color)).

(** [generateGradient(startColor, endColor, steps)], [steps] an integer. *)
Definition generateGradient (startColor endColor : colorInput) (steps : Z)
    : list string :=
  let start := tinycolor startColor in
  let end_ := tinycolor endColor in
  if negb (isValid start) || negb (isValid end_) || (steps <? 2)%Z then []
  else
    map (fun i : nat =>
           let amount := inject_Z (Z.of_nat i) / inject_Z (steps - 1) in
           let mixed := mix start end_ (amount * 100) in
           toHexString mixed)
        (seq 0 (Z.to_nat steps)).

(** [interpolateHue(start, end, t)]. *)
Definition interpolateHue (start end_ t : Q) : Q :=
  let diff := end_ - start in
  let diff :=
    if 180 <? diff then diff - 360
    else if diff <? -180 then diff + 360
    else diff in
  let result := start + diff * t in
  let result := if result <? 0 then result + 360 else result in
  let result := if 360 <=? result then result - 360 else result in
  result.

(** The hue [adjustTemperature] hands to the colour it builds: warmer
    (toward 30 degrees) for a positive amount, cooler (toward 210 degrees)
    otherwise. *)
Definition targetHue (h amount : Q) : Q :=
  if 0 <? amount then interpolateHue h 30 (amount / 100)
  else interpolateHue h 210 (Qabs amount / 100).

(** [adjustTemperature(color, amount)]. *)
Definition adjustTemperature (color : colorInput) (amount : Q)
    : option string :=
  let c := tinycolor color in
  if negb (isValid c) then None
  else
    let hsl := toHsl c in
    Some (toHexString
            (tinycolor (HslInput (targetHue (hsl_h hsl) amount)
                                 (Num (hsl_s hsl * 100))
                                 (Num (hsl_l hsl * 100)) 1))).

(** [generateMonochromatic(baseColor, count)], [count] an integer.  With
    [count = 1] the step [100 / 0] is infinite and the one lightness,
    [0 * Infinity], is NaN: the library takes [{h, s, l: NaN}] for no colour
    and the palette is its black. *)
Definition generateMonochromatic (baseColor : colorInput) (count : Z)
    : list string :=
  let color := tinycolor baseColor in
  if negb (isValid color) then []
  else if (count =? 1)%Z then [toHexString (tinycolor NoColor)]
  else
    let step := 100 / inject_Z (count - 1) in
    map (fun i : nat =>
           let lightness := inject_Z (Z.of_nat i) * step in
           let hsl := toHsl color in
           let variant :=
             tinycolor (HslInput (hsl_h hsl) (Num (hsl_s hsl * 100))
                                 (Num lightness) 1) in
           toHexString variant)
        (seq 0 (Z.to_nat count)).

(** [generateTonal(baseColor, count)], with the same reading of
    [count = 1]. *)
Definition generateTonal (baseColor : colorInput) (count : Z) : list string :=
  let color := tinycolor baseColor in
  if negb (isValid color) then []
  else if (count =? 1)%Z then [toHexString (tinycolor NoColor)]
  else
    let hsl := toHsl color in
    let step := 100 / inject_Z (count - 1) in
    map (fun i : nat =>
           let saturation := inject_Z (Z.of_nat i) * step in
           let variant :=
             tinycolor (HslInput (hsl_h hsl) (Num saturation)
                                 (Num (hsl_l hsl * 100)) 1) in
           toHexString variant)
        (seq 0 (Z.to_nat count)).

Inductive mood : Set :=
| Energetic | Calm | Warm | Cool | Vibrant | Muted | Dark | Light.

(** [generateMoodPalette(mood)]. *)
Definition generateMoodPalette (m : mood) : list string :=
  match m with
  | Energetic => ["#ff6b35"; "#f7931e"; "#fdc830"; "#37cfdc"; "#8e44ad"]
  | Calm => ["#a8dadc"; "#457b9d"; "#1d3557"; "#f1faee"; "#e63946"]
  | Warm => ["#ff9a56"; "#ff6b6b"; "#ff4757"; "#ffa502"; "#ffd32a"]
  | Cool => ["#54a0ff"; "#48dbfb"; "#0abde3"; "#00d2d3"; "#1dd1a1"]
  | Vibrant => ["#ff006e"; "#fb5607"; "#ffbe0b"; "#8338ec"; "#3a86ff"]
  | Muted => ["#8d99ae"; "#edf2f4"; "#ef233c"; "#d90429"; "#2b2d42"]
  | Dark => ["#2d3436"; "#636e72"; "#b2bec3"; "#dfe6e9"; "#000000"]
  | Light => ["#ffffff"; "#f8f9fa"; "#e9ecef"; "#dee2e6"; "#ced4da"]
  end%string.

Inductive blendMode : Set := Average | Multiply | Screen.

(** The colours ["#ffffff"] and ["#000000"]. *)
Definition white : colorInput := RgbInput FmtHex 255 255 255 1.
Definition black : colorInput := RgbInput FmtHex 0 0 0 1.

(** The grey whose three channels are [v]. *)
Definition grey (v : Z) : colorInput :=
  RgbInput FmtHex (inject_Z v) (inject_Z v) (inject_Z v) 1.

(** The colour [{r, g, b}] of three numbers. *)
Definition ofRgb (r g b : Q) : color := tinycolor (RgbInput FmtRgb r g b 1).

(** One turn of the loop of the [multiply] mode. *)
Definition multiplyStep (result c : color) : color :=
  let rgb1 := toRgb result in
  let rgb2 := toRgb c in
  ofRgb (inject_Z (rgb_r rgb1 * rgb_r rgb2) / 255)
        (inject_Z (rgb_g rgb1 * rgb_g rgb2) / 255)
        (inject_Z (rgb_b rgb1 * rgb_b rgb2) / 255).

(** One turn of the loop of the [screen] mode. *)
Definition screenStep (result c : color) : color :=
  let rgb1 := toRgb result in
  let rgb2 := toRgb c in
  ofRgb (255 - inject_Z ((255 - rgb_r rgb1) * (255 - rgb_r rgb2)) / 255)
        (255 - inject_Z ((255 - rgb_g rgb1) * (255 - rgb_g rgb2)) / 255)
        (255 - inject_Z ((255 - rgb_b rgb1) * (255 - rgb_b rgb2)) / 255).

(** The channel sums of the [average] mode. *)
Definition sumRgb (cs : list color) : Z * Z * Z :=
  fold_left (fun '(r, g, b) c =>
               let rgb := toRgb c in
               (r + rgb_r rgb, g + rgb_g rgb, b + rgb_b rgb)%Z)
            cs (0, 0, 0)%Z.

(** [blendColors(colors, mode)]. *)
Definition blendColors (colors : list colorInput) (mode : blendMode)
    : option string :=
  if (length colors =? 0)%nat then None
  else
    let validColors := filter isValid (map tinycolor colors) in
    match validColors with
    | [] => None
    | first :: rest =>
        match mode with
        | Average =>
            let '(r, g, b) := sumRgb validColors in
            let count := inject_Z (Z.of_nat (length validColors)) in
            Some (toHexString (ofRgb (inject_Z r / count) (inject_Z g / count)
                                     (inject_Z b / count)))
        | Multiply => Some (toHexString (fold_left multiplyStep rest first))
        | Screen => Some (toHexString (fold_left screenStep rest first))
        end
    end.

(** [getPerceivedBrightness(color)]. *)
Definition getPerceivedBrightness (color : colorInput) : Q :=
  let c := tinycolor color in
  if negb (isValid c) then 0
  else
    let rgb := toRgb c in
    ((299 # 1000) * inject_Z (rgb_r rgb) + (587 # 1000) * inject_Z (rgb_g rgb)
     + (114 # 1000) * inject_Z (rgb_b rgb)) / 255.

End ColorOps.

(** ** Arithmetic with rounding

    Rounding to the nearest binary64 number is monotone, leaves the integers
    up to 2^53 as they are, and moves a number by at most the fraction 2^-53
    of it, or by half the smallest positive number where the result is
    subnormal.  The hue interpolation is embedded with a rounding function
    after every operation; its properties are proved for every rounding
    function with these three properties.  Its operands stay below 540, far
    from the numbers that round to an infinity, so nothing hangs on what
    the function is taken to be there. *)

Module Rounding.
Local Open Scope Q_scope.

(** The unit roundoff of binary64, and half its smallest positive number. *)
Definition eps : Q := 1 # (2 ^ 53).
Definition eta : Q := 1 # (2 ^ 1075).

Definition faithful (rnd : Q -> Q) : Prop :=
  (forall x y, x <= y -> rnd x <= rnd y)
  /\ (forall z : Z, (Z.abs z <= 2 ^ 53)%Z -> rnd (inject_Z z) == inject_Z z)
  /\ (forall x, Qabs (rnd x - x) <= eps * Qabs x + eta).

(** A rounding of this kind: to the nearest multiple of 2^-1074, the spacing
    of the smallest binary64 numbers. *)
Definition toGrid (x : Q) : Q :=
  inject_Z (Qfloor (x * inject_Z (2 ^ 1074) + (1 # 2))) / inject_Z (2 ^ 1074).

End Rounding.

Module ColorOpsRounded.
Import Tinycolor Rounding.
Local Open Scope Q_scope.

Section Binary64.
Variable rnd : Q -> Q.

(** [interpolateHue(start, end, t)]. *)
Definition interpolateHue (start end_ t : Q) : Q :=
  let diff := rnd (end_ - start) in
  let diff :=
    if 180 <? diff then rnd (diff - 360)
    else if diff <? -180 then rnd (diff + 360)
    else diff in
  let result := rnd (start + rnd (diff * t)) in
  let result := if result <? 0 then rnd (result + 360) else result in
  let result := if 360 <=? result then rnd (result - 360) else result in
  result.

End Binary64.

(** The tolerance of the arc: 1e-12 of a degree. *)
Definition tol : Q := 1 # 1000000000000.

(** [hue] lies, up to [tol], on the shorter arc of the colour circle from
    [start] to [target], at the fraction [t] of the way: it is [start + t * d]
    up to whole turns, for a signed angle [d] of at most a half turn that
    leads from [start] to [target]. *)
Definition nearShortArc (start target t hue : Q) : Prop :=
  exists (d : Q) (k j : Z),
    -180 <= d <= 180
    /\ Qabs (d - (target - start + 360 * inject_Z k)) <= tol
    /\ Qabs (hue - (start + t * d + 360 * inject_Z j)) <= tol.

End ColorOpsRounded.

(** ** Contrast ([ColorManipulator] of [src/colors/manipulation.ts])

    The luminance of the colour library raises to the power 2.4; it is
    embedded over the real numbers, on the integer channels [toRgb] rounds
    a colour to. *)

Module Contrast.
Import Tinycolor.
Local Open Scope R_scope.

(** One channel of [getLuminance()] of the library: the sRGB transfer
    function on a channel value in 0..255. *)
Definition linearChannel (v : Z) : R :=
  let s := IZR v / 255 in
  if Rle_dec s 0.03928 then s / 12.92
  else Rpower ((s + 0.055) / 1.055) 2.4.

(** [getLuminance(color)]: an invalid colour is the library's black. *)
Definition getLuminance (color : colorInput) : R :=
  let rgb := toRgb (tinycolor color) in
  0.2126 * linearChannel (rgb_r rgb) + 0.7152 * linearChannel (rgb_g rgb)
  + 0.0722 * linearChannel (rgb_b rgb).

(** [getContrastRatio(color1, color2)]. *)
Definition getContrastRatio (color1 color2 : colorInput) : R :=
  let lum1 := getLuminance color1 in
  let lum2 := getLuminance color2 in
  let lighter := Rmax lum1 lum2 in
  let darker := Rmin lum1 lum2 in
  (lighter + 0.05) / (darker + 0.05).

(** [meetsWCAGAA(foreground, background)]. *)
Definition meetsWCAGAA (foreground background : colorInput) : Prop :=
  getContrastRatio foreground background >= 4.5.

(** [meetsWCAGAAA(foreground, background)]. *)
Definition meetsWCAGAAA (foreground background : colorInput) : Prop :=
  getContrastRatio foreground background >= 7.0.

End Contrast.

(** ** The reactive mapper ([ReactiveThemeController]) *)

Module Reactive.
Import Tinycolor.
Local Open Scope Q_scope.

(** The payload of the audio view, as the mapper reads it. *)
Record AudioAnalysisData : Set := mkData {
  energy : Q;
  isBeat : bool;
  brightness : Q;
  spectralCentroid : Q;
  dominantFreq : Q;
  timestamp : Q
}.

(** A value of the setting [workbench.colorCustomizations]. *)
Definition ColorMap : Set := list (string * string).

Record ReactiveThemeController : Set := mkController {
  baseColors : ColorMap;
  isActive : bool;
  smoothingFactor : Q;
  lastHue : Q;
  lastSaturation : Q;
  lastBrightness : Q
}.

(** The controller as its constructor leaves it. *)
Definition newController : ReactiveThemeController :=
  {| baseColors := []; isActive := false; smoothingFactor := 3 # 10;
     lastHue := 0; lastSaturation := 50; lastBrightness := 50 |}.

(** [activate()]: the customizations in force are captured as the baseline. *)
Definition activate (this : ReactiveThemeController) (config : ColorMap)
    : ReactiveThemeController * ColorMap :=
  if isActive this then (this, config)
  else ({| baseColors := config; isActive := true;
           smoothingFactor := smoothingFactor this;
           lastHue := lastHue this; lastSaturation := lastSaturation this;
           lastBrightness := lastBrightness this |}, config).

(** [deactivate()]: the baseline is written back. *)
Definition deactivate (this : ReactiveThemeController) (config : ColorMap)
    : ReactiveThemeController * ColorMap :=
  if negb (isActive this) then (this, config)
  else ({| baseColors := baseColors this; isActive := false;
           smoothingFactor := smoothingFactor this;
           lastHue := lastHue this; lastSaturation := lastSaturation this;
           lastBrightness := lastBrightness this |}, baseColors this).

Definition smooth (current target factor : Q) : Q :=
  current + (target - current) * factor.

(** The customizations [processAudioData] writes for the colour [baseColor]
    of the frame. *)
Definition themeColors (baseColor : color) (isBeat : bool) : ColorMap :=
  let beatBoost : Q := if isBeat then 15 else 0 in
  let editorBg := toHexString (darken (25 - beatBoost) (clone baseColor)) in
  let sidebarBg := toHexString (spin 30 (darken 30 (clone baseColor))) in
  let accentColor :=
    toHexString (saturate 20 (lighten (20 + beatBoost) (clone baseColor))) in
  let selectionBg := toHexString (setAlpha (clone baseColor) (3 # 10)) in
  let complementary := spin 180 (clone baseColor) in
  let highlightColor :=
    toHexString (lighten (30 + beatBoost) (clone complementary)) in
  let analogous1 := lighten 10 (spin 30 (clone baseColor)) in
  let analogous2 := lighten 10 (spin (-30) (clone baseColor)) in
  [ ("editor.background", editorBg);
    ("editor.selectionBackground", selectionBg);
    ("editor.lineHighlightBackground",
       toHexString (setAlpha (darken 20 (clone baseColor)) (1 # 10)));
    ("editorCursor.foreground", accentColor);
    ("editor.findMatchHighlightBackground", highlightColor);
    ("sideBar.background", sidebarBg);
    ("sideBarSectionHeader.background",
       toHexString (darken 35 (clone baseColor)));
    ("activityBar.background", toHexString (darken 35 (clone baseColor)));
    ("activityBar.activeBorder", accentColor);
    ("activityBar.foreground", accentColor);
    ("statusBar.background",
       if isBeat then accentColor
       else toHexString (darken 30 (clone baseColor)));
    ("statusBar.foreground",
       if isBeat then "#000000"
       else toHexString (lighten 40 (clone baseColor)));
    ("terminal.ansiBlue", toHexString analogous1);
    ("terminal.ansiMagenta", toHexString analogous2);
    ("terminal.ansiCyan", toHexString (lighten 20 (clone baseColor)));
    ("chat.requestBackground",
       toHexString (setAlpha (darken 20 (clone baseColor)) (2 # 10)));
    ("chat.slashCommandBackground", accentColor ++ "33");
    ("notificationCenter.border", accentColor);
    ("notifications.background", sidebarBg);
    ("list.activeSelectionBackground",
       toHexString (darken 15 (clone baseColor)));
    ("list.hoverBackground",
       toHexString (setAlpha (darken 22 (clone baseColor)) (5 # 10)));
    ("list.focusOutline", accentColor) ]%string.

(** [processAudioData(data)]: the controller after the call and the
    customizations in force after it. *)
Definition processAudioData (this : ReactiveThemeController)
    (config : ColorMap) (data : AudioAnalysisData)
    : ReactiveThemeController * ColorMap :=
  if negb (isActive this) then (this, config)
  else
    let targetHue := inject_Z (Qfloor (dominantFreq data * 360)) in
    let targetSaturation := 40 + energy data * 60 in
    let targetBrightness := 30 + spectralCentroid data * 40 in
    let hue := smooth (lastHue this) targetHue (smoothingFactor this) in
    let saturation :=
      smooth (lastSaturation this) targetSaturation (smoothingFactor this) in
    let lightness :=
      smooth (lastBrightness this) targetBrightness (smoothingFactor this) in
    let baseColor :=
      tinycolor (HslInput hue (Num saturation) (Num lightness) 1) in
    ({| baseColors := baseColors this; isActive := true;
        smoothingFactor := smoothingFactor this;
        lastHue := hue; lastSaturation := saturation;
        lastBrightness := lightness |},
     themeColors baseColor (isBeat data)).

(** The sample with its three features clamped into [0, 1]. *)
Definition clampFeatures (data : AudioAnalysisData) : AudioAnalysisData :=
  {| energy := clamp01 (energy data); isBeat := isBeat data;
     brightness := brightness data;
     spectralCentroid := clamp01 (spectralCentroid data);
     dominantFreq := clamp01 (dominantFreq data);
     timestamp := timestamp data |}.

(** The sample with its beat flag set to [beat]. *)
Definition withBeat (data : AudioAnalysisData) (beat : bool)
    : AudioAnalysisData :=
  {| energy := energy data; isBeat := beat; brightness := brightness data;
     spectralCentroid := spectralCentroid data;
     dominantFreq := dominantFreq data; timestamp := timestamp data |}.

(** A call the extension makes on the controller between two
    deactivations. *)
Inductive call : Set :=
| Process (data : AudioAnalysisData)
| Activate.

(** The controller and the customizations after a sequence of calls. *)
Fixpoint run (this : ReactiveThemeController) (config : ColorMap)
    (calls : list call) : ReactiveThemeController * ColorMap :=
  match calls with
  | [] => (this, config)
  | Process data :: rest =>
      let '(this', config') := processAudioData this config data in
      run this' config' rest
  | Activate :: rest =>
      let '(this', config') := activate this config in
      run this' config' rest
  end.

(** A sample whose three features lie in [0, 1]. *)
Definition inRange (data : AudioAnalysisData) : Prop :=
  0 <= energy data <= 1 /\ 0 <= spectralCentroid data <= 1
  /\ 0 <= dominantFreq data <= 1.

(** A smoothing state within the range the targets span. *)
Definition stateInRange (this : ReactiveThemeController) : Prop :=
  0 <= lastHue this <= 360 /\ 40 <= lastSaturation this <= 100
  /\ 30 <= lastBrightness this <= 70.

(** The keys [processAudioData] writes, in the order of the source. *)
Definition paletteKeys : list string :=
  [ "editor.background"; "editor.selectionBackground";
    "editor.lineHighlightBackground"; "editorCursor.foreground";
    "editor.findMatchHighlightBackground"; "sideBar.background";
    "sideBarSectionHeader.background"; "activityBar.background";
    "activityBar.activeBorder"; "activityBar.foreground";
    "statusBar.background"; "statusBar.foreground"; "terminal.ansiBlue";
    "terminal.ansiMagenta"; "terminal.ansiCyan"; "chat.requestBackground";
    "chat.slashCommandBackground"; "notificationCenter.border";
    "notifications.background"; "list.activeSelectionBackground";
    "list.hoverBackground"; "list.focusOutline" ]%string.

(** A freshly built controller, activated over empty customizations. *)
Definition activeController : ReactiveThemeController :=
  fst (activate newController []).

(** A sample whose energy, 10, lies far outside [0, 1]. *)
Definition loudSample : AudioAnalysisData :=
  {| energy := 10; isBeat := false; brightness := 0;
     spectralCentroid := 1 # 2; dominantFreq := 1 # 2; timestamp := 0 |}.

End Reactive.

(** ** The theme history ([ThemeHistoryManager] of
    [src/themes/ThemeHistory.ts]) *)

Module ThemeHistory.

(** A value of the setting [workbench.colorCustomizations]. *)
Definition ColorMap : Set := list (string * string).

Record ThemeSnapshot : Set := mkSnapshot {
  timestamp : Z;
  colors : ColorMap;
  description : option string
}.

Record ThemeHistoryManager : Set := mkManager {
  history : list ThemeSnapshot;
  currentIndex : Z;
  maxHistorySize : Z
}.

(** [list.slice(0, end)]: a negative [end] counts from the end of the
    list. *)
Definition slice0 {A : Type} (l : list A) (end_ : Z) : list A :=
  if (end_ <? 0)%Z
  then firstn (Z.to_nat (Z.of_nat (length l) + end_)) l
  else firstn (Z.to_nat end_) l.

(** [addSnapshot(colors, description)], at the time [now]. *)
Definition addSnapshot (this : ThemeHistoryManager) (now : Z)
    (colors : ColorMap) (description : option string) : ThemeHistoryManager :=
  let kept :=
    if (currentIndex this <? Z.of_nat (length (history this)) - 1)%Z
    then slice0 (history this) (currentIndex this + 1)
    else history this in
  let snapshot :=
    {| timestamp := now; colors := colors; description := description |} in
  let pushed := kept ++ [snapshot] in
  let index := (currentIndex this + 1)%Z in
  if (maxHistorySize this <? Z.of_nat (length pushed))%Z
  then {| history := tl pushed; currentIndex := index - 1;
          maxHistorySize := maxHistorySize this |}
  else {| history := pushed; currentIndex := index;
          maxHistorySize := maxHistorySize this |}.

(** [new ThemeHistoryManager(maxSize)]: the customizations in force are the
    first snapshot. *)
Definition newManager (maxSize now : Z) (config : ColorMap)
    : ThemeHistoryManager :=
  addSnapshot {| history := []; currentIndex := -1; maxHistorySize := maxSize |}
              now config (Some "Initial state"%string).

Definition canUndo (this : ThemeHistoryManager) : bool :=
  (0 <? currentIndex this)%Z.

Definition canRedo (this : ThemeHistoryManager) : bool :=
  (currentIndex this <? Z.of_nat (length (history this)) - 1)%Z.

(** How a call ends: it returns a boolean, or reading [snapshot.colors] of a
    missing snapshot throws. *)
Inductive outcome : Set :=
| Returned (result : bool)
| Threw.

(** [history[index]]. *)
Definition at_ (this : ThemeHistoryManager) (index : Z) : option ThemeSnapshot :=
  if (index <? 0)%Z then None else nth_error (history this) (Z.to_nat index).

(** Move to [index] and apply its snapshot ([applySnapshot]): the index is
    assigned before the snapshot is read. *)
Definition moveTo (this : ThemeHistoryManager) (config : ColorMap) (index : Z)
    : outcome * ThemeHistoryManager * ColorMap :=
  let this' := {| history := history this; currentIndex := index;
                  maxHistorySize := maxHistorySize this |} in
  match at_ this index with
  | Some snapshot => (Returned true, this', colors snapshot)
  | None => (Threw, this', config)
  end.

(** [undo()]. *)
Definition undo (this : ThemeHistoryManager) (config : ColorMap)
    : outcome * ThemeHistoryManager * ColorMap :=
  if negb (canUndo this) then (Returned false, this, config)
  else moveTo this config (currentIndex this - 1).

(** [redo()]. *)
Definition redo (this : ThemeHistoryManager) (config : ColorMap)
    : outcome * ThemeHistoryManager * ColorMap :=
  if negb (canRedo this) then (Returned false, this, config)
  else moveTo this config (currentIndex this + 1).

(** [jumpTo(index)], [index] an integer. *)
Definition jumpTo (this : ThemeHistoryManager) (config : ColorMap) (index : Z)
    : outcome * ThemeHistoryManager * ColorMap :=
  if (index <? 0)%Z || (Z.of_nat (length (history this)) <=? index)%Z
  then (Returned false, this, config)
  else moveTo this config index.

(** [clear()]. *)
Definition clear (this : ThemeHistoryManager) (now : Z) (config : ColorMap)
    : ThemeHistoryManager :=
  addSnapshot {| history := []; currentIndex := -1;
                 maxHistorySize := maxHistorySize this |}
              now config (Some "Initial state"%string).

(** A call on the manager. *)
Inductive call : Set :=
| AddSnapshot (now : Z) (colors : ColorMap) (description : option string)
| Undo
| Redo
| JumpTo (index : Z)
| Clear (now : Z).

(** One call: how it ends, the manager and the customizations after it. *)
Definition step (this : ThemeHistoryManager) (config : ColorMap) (c : call)
    : outcome * ThemeHistoryManager * ColorMap :=
  match c with
  | AddSnapshot now colors description =>
      (Returned true, addSnapshot this now colors description, config)
  | Undo => undo this config
  | Redo => redo this config
  | JumpTo index => jumpTo this config index
  | Clear now => (Returned true, clear this now config, config)
  end.

(** A sequence of calls: the outcomes, the manager and the customizations
    after them. *)
Fixpoint run (this : ThemeHistoryManager) (config : ColorMap)
    (calls : list call) : list outcome * ThemeHistoryManager * ColorMap :=
  match calls with
  | [] => ([], this, config)
  | c :: rest =>
      let '(o, this', config') := step this config c in
      let '(os, this'', config'') := run this' config' rest in
      (o :: os, this'', config'')
  end.

(** The current index points at a snapshot and the history respects the
    size limit. *)
Definition wellFormed (this : ThemeHistoryManager) : Prop :=
  (0 <= currentIndex this < Z.of_nat (length (history this)))%Z
  /\ (Z.of_nat (length (history this)) <= maxHistorySize this)%Z.

End ThemeHistory.

(** ** The feature extractor and the beat detector

    [applyMelFilterbank] and [analyzeAudioFeatures] of the audio view, over
    binary64 floats. *)

Module Audio.
Import Mel.
Local Open Scope float_scope.

(** An integer as the number of the same value (exact below 2^53). *)
Definition ofZ (z : Z) : float :=
  if (z <? 0)%Z then - of_uint63 (Uint63.of_Z (- z))
  else of_uint63 (Uint63.of_Z z).

(** [Math.floor] of a finite number. *)
Definition floorF (x : float) : Z :=
  match Prim2SF x with
  | S754_finite s m e =>
      let v := if s then Z.neg m else Z.pos m in
      if (0 <=? e)%Z then (v * 2 ^ e)%Z else (v / 2 ^ (- e))%Z
  | _ => 0%Z
  end.

(** A store into a [Float32Array] rounds the number to binary32. *)
Definition fround (x : float) : float :=
  match Prim2SF x with
  | S754_finite s m e => SF2Prim (binary_round 24 128 s m e)
  | _ => x
  end.

(** [fftData[bin]]; the loop reads only below [fftData.length], and a read at
    a negative index is [undefined], which arithmetic turns into [nan]. *)
Definition readBin (fftData : list float) (bin : Z) : float :=
  if (bin <? 0)%Z then nan else nth (Z.to_nat bin) fftData nan.

(** The bins [leftBin, leftBin + 1, ..., rightBin] the inner loop visits. *)
Definition binsOf (filter : MelFilter) : list Z :=
  map (fun k => (leftBin filter + Z.of_nat k)%Z)
      (seq 0 (Z.to_nat (rightBin filter - leftBin filter + 1))).

(** One turn of the inner loop on the pair [(sum, count)]. *)
Definition filterStep (fftData : list float) (filter : MelFilter)
    (acc : float * Z) (bin : Z) : float * Z :=
  let '(sum, count) := acc in
  if (bin <? Z.of_nat (length fftData))%Z then
    let weight :=
      if (bin <? centerBin filter)%Z
      then ofZ (bin - leftBin filter) / ofZ (centerBin filter - leftBin filter)
      else ofZ (rightBin filter - bin) / ofZ (rightBin filter - centerBin filter)
    in (sum + readBin fftData bin * weight, (count + 1)%Z)
  else acc.

(** The value computed for one filter: [count > 0 ? sum / count : 0]. *)
Definition melValue (fftData : list float) (filter : MelFilter) : float :=
  let '(sum, count) :=
    fold_left (filterStep fftData filter) (binsOf filter) (0, 0%Z) in
  if (0 <? count)%Z then sum / ofZ count else 0.

(** [applyMelFilterbank(fftData, filterbank)]; the result is a
    [Float32Array]. *)
Definition applyMelFilterbank (fftData : list float)
    (filterbank : list MelFilter) : list float :=
  map (fun filter => fround (melValue fftData filter)) filterbank.

(** The state [beatDetector] of the audio view. *)
Record BeatDetector : Set := mkBeatDetector {
  history : list float;
  threshold : float;
  lastBeat : float
}.

Definition beatDetector0 : BeatDetector :=
  {| history := []; threshold := 1.3; lastBeat := 0 |}.

(** [history.reduce((a, b) => a + b, 0) / history.length]. *)
Definition average (h : list float) : float :=
  fold_left PrimFloat.add h 0 / ofZ (Z.of_nat (length h)).

(** The beat detection of [analyzeAudioFeatures]: push the sample, drop the
    oldest one past 43, compare the sample with the mean of the buffer. *)
Definition observe (bd : BeatDetector) (energy : float)
    : BeatDetector * bool :=
  let pushed := history bd ++ [energy] in
  let kept := if (43 <? length pushed)%nat then tl pushed else pushed in
  let avgEnergy := average kept in
  ({| history := kept; threshold := threshold bd; lastBeat := lastBeat bd |},
   avgEnergy * threshold bd <? energy).

(** The payload sent to the extension for every analysed frame. *)
Record AudioAnalysisData : Set := mkAnalysis {
  energy : float;
  isBeat : bool;
  brightness : float;
  spectralCentroid : float;
  dominantFreq : float;
  timestamp : float
}.

(** The search of the dominant mel bin: [(maxBin, maxValue)] after the bins
    of [melSpectrum] from index [i] on. *)
Fixpoint dominantFrom (melSpectrum : list float) (i : Z) (acc : Z * float)
    : Z * float :=
  match melSpectrum with
  | [] => acc
  | v :: rest =>
      dominantFrom rest (i + 1)%Z (if snd acc <? v then (i, v) else acc)
  end.

(** The two sums of the spectral centroid: [(weightedSum, sum)]. *)
Fixpoint centroidSums (melSpectrum : list float) (i : Z) (acc : float * float)
    : float * float :=
  match melSpectrum with
  | [] => acc
  | v :: rest =>
      centroidSums rest (i + 1)%Z (fst acc + ofZ i * v, snd acc + v)
  end.

(** [analyzeAudioFeatures(frequencyData, melSpectrum)], with the beat
    detector it updates and the clock it reads made explicit. *)
Definition analyzeAudioFeatures (bd : BeatDetector) (now : float)
    (frequencyData melSpectrum : list float)
    : BeatDetector * AudioAnalysisData :=
  let len := Z.of_nat (length frequencyData) in
  let energy :=
    PrimFloat.sqrt (fold_left (fun e x => e + x * x) frequencyData 0 / ofZ len) / 255 in
  let '(bd', isBeat) := observe bd energy in
  let highFreqStart := floorF (ofZ len * 0.6) in
  let brightness :=
    fold_left PrimFloat.add (skipn (Z.to_nat highFreqStart) frequencyData) 0
    / ofZ (len - highFreqStart) / 255 in
  let mels := Z.of_nat (length melSpectrum) in
  let '(weightedSum, sum) := centroidSums melSpectrum 0%Z (0, 0) in
  let spectralCentroid :=
    if 0 <? sum then weightedSum / sum / ofZ mels else 0 in
  let '(maxBin, _) := dominantFrom melSpectrum 0%Z (0%Z, 0) in
  let dominantFreq := ofZ maxBin / ofZ mels in
  (bd', {| energy := energy; isBeat := isBeat; brightness := brightness;
           spectralCentroid := spectralCentroid;
           dominantFreq := dominantFreq; timestamp := now |}).

(** The detector fed a sequence of energy samples: the beat flags, in
    order. *)
Fixpoint feed (bd : BeatDetector) (energies : list float) : list bool :=
  match energies with
  | [] => []
  | e :: rest => let '(bd', beat) := observe bd e in beat :: feed bd' rest
  end.

(** The three quotients of [analyzeAudioFeatures] on a silent frame of [n]
    bins are zero: the energy, the brightness and the dominant bin. *)
Definition silentQuotients (n : nat) : bool :=
  let len := Z.of_nat n in
  Leibniz.eqb (PrimFloat.sqrt (0 / ofZ len) / 255) 0
  && Leibniz.eqb (0 / ofZ (len - floorF (ofZ len * 0.6)) / 255) 0
  && Leibniz.eqb (ofZ 0 / ofZ len) 0.

(** A detector that has seen [j] samples of silence. *)
Definition silentDetector (j : nat) (lastBeat : float) : BeatDetector :=
  {| history := repeat 0 j; threshold := 1.3; lastBeat := lastBeat |}.

(** A window of [j] silent samples has a mean that 0 does not exceed. *)
Definition silentMean (j : nat) : bool :=
  negb (average (repeat 0 j) * 1.3 <? 0).

(** The detector after a sequence of energy samples. *)
Fixpoint detectorAfter (bd : BeatDetector) (energies : list float)
    : BeatDetector :=
  match energies with
  | [] => bd
  | e :: rest => detectorAfter (fst (observe bd e)) rest
  end.

End Audio.

(** ** The mel filterbank over binary64 floats

    [createMelFilterbank] as the engine runs it.  The bins are numbers:
    [Math.floor] of [nan] is [nan]. *)

Module MelFloat.
Import Audio.
Local Open Scope float_scope.

(** A filter as the construction stores it: three numbers. *)
Record MelFilter : Set := mkFilter {
  leftBin : float;
  centerBin : float;
  rightBin : float
}.

(** [Math.floor]: a number from 2^52 on, an infinity and [nan] are their own
    floor. *)
Definition mathFloor (x : float) : float :=
  match Prim2SF x with
  | S754_finite _ _ _ => if abs x <? 0x1p52 then ofZ (floorF x) else x
  | _ => x
  end.

Section Engine.
(** [Math.log10] and [Math.pow]. *)
Variable log10 : float -> float.
Variable pow : float -> float -> float.

Definition hzToMel (hz : float) : float := 2595 * log10 (1 + hz / 700).

Definition melToHz (mel : float) : float := 700 * (pow 10 (mel / 2595) - 1).

(** The body of the loop of [createMelFilterbank] at index [i]. *)
Definition melFilterAt (minMel melStep : float) (fftSize : Z)
    (sampleRate : float) (i : nat) : MelFilter :=
  let i := ofZ (Z.of_nat i) in
  let leftMel := minMel + i * melStep in
  let centerMel := minMel + (i + 1) * melStep in
  let rightMel := minMel + (i + 2) * melStep in
  let leftHz := melToHz leftMel in
  let centerHz := melToHz centerMel in
  let rightHz := melToHz rightMel in
  {| leftBin := mathFloor (leftHz / (sampleRate / ofZ fftSize));
     centerBin := mathFloor (centerHz / (sampleRate / ofZ fftSize));
     rightBin := mathFloor (rightHz / (sampleRate / ofZ fftSize)) |}.

Definition createMelFilterbank (numFilters fftSize : Z) (sampleRate : float)
    : list MelFilter :=
  let minMel := hzToMel 0 in
  let maxMel := hzToMel (sampleRate / 2) in
  let melStep := (maxMel - minMel) / ofZ (numFilters + 1) in
  map (melFilterAt minMel melStep fftSize sampleRate)
      (seq 0 (Z.to_nat numFilters)).

End Engine.

(** [leftBin <= centerBin <= rightBin], by the comparison of numbers. *)
Definition ordered (f : MelFilter) : bool :=
  (leftBin f <=? centerBin f) && (centerBin f <=? rightBin f).

End MelFloat.

(** * Properties *)

(** ** The colour library *)

Module TinycolorFacts.
Import Tinycolor.
Local Open Scope Q_scope.

Lemma Qltb_spec (x y : Q) : BoolSpec (x < y) (y <= x) (x <? y).
Proof.
  unfold Qltb. destruct (Qle_bool y x) eqn:E; constructor.
  - now apply Qle_bool_iff.
  - apply Qnot_le_lt. intros H. apply Qle_bool_iff in H. congruence.
Qed.

Lemma Qleb_spec (x y : Q) : BoolSpec (x <= y) (y < x) (x <=? y).
Proof.
  destruct (Qle_bool x y) eqn:E; constructor.
  - now apply Qle_bool_iff.
  - apply Qnot_le_lt. intros H. apply Qle_bool_iff in H. congruence.
Qed.

Lemma Qeqb_spec (x y : Q) : BoolSpec (x == y) (~ x == y) (x =? y).
Proof.
  destruct (Qeq_bool x y) eqn:E; constructor.
  - now apply Qeq_bool_iff.
  - now apply Qeq_bool_neq.
Qed.

(** Case analysis on the first comparison of rationals in the goal. *)
Ltac qcase :=
  match goal with
  | |- context [Qltb ?x ?y] => destruct (Qltb_spec x y)
  | |- context [Qle_bool ?x ?y] => destruct (Qleb_spec x y)
  | |- context [Qeq_bool ?x ?y] => destruct (Qeqb_spec x y)
  end.

(** The bounds of [Qmin] and [Qmax] terms, added to the context. *)
Ltac qminmax :=
  repeat match goal with
  | |- context [Qmin ?x ?y] =>
      lazymatch goal with
      | _ : Qmin x y == _ |- _ => fail
      | _ => destruct (Q.min_spec x y) as [[? ?]|[? ?]]
      end
  | |- context [Qmax ?x ?y] =>
      lazymatch goal with
      | _ : Qmax x y == _ |- _ => fail
      | _ => destruct (Q.max_spec x y) as [[? ?]|[? ?]]
      end
  end.

Lemma Qfloor_unique (x : Q) (n : Z) :
  inject_Z n <= x -> x < inject_Z n + 1 -> Qfloor x = n.
Proof.
  intros Hl Hu.
  pose proof (Qfloor_le x) as H1. pose proof (Qlt_floor x) as H2.
  rewrite inject_Z_plus in H2.
  assert (Ha : inject_Z (Qfloor x) < inject_Z (n + 1))
    by (rewrite inject_Z_plus; change (inject_Z 1) with 1; lra).
  assert (Hb : inject_Z n < inject_Z (Qfloor x + 1))
    by (rewrite inject_Z_plus; change (inject_Z 1) with 1 in *; lra).
  rewrite <- Zlt_Qlt in Ha, Hb. lia.
Qed.

Lemma mathRound_int (x : Q) (n : Z) : x == inject_Z n -> mathRound x = n.
Proof.
  intros H. unfold mathRound. apply Qfloor_unique; lra.
Qed.

Lemma mathRound_range (x : Q) (lo hi : Z) :
  inject_Z lo <= x -> x <= inject_Z hi -> (lo <= mathRound x <= hi)%Z.
Proof.
  intros Hl Hu. unfold mathRound. split.
  - rewrite <- (Qfloor_Z lo). apply Qfloor_resp_le. lra.
  - replace hi with (Qfloor (inject_Z hi + (1 # 2)))
      by (apply Qfloor_unique; lra).
    apply Qfloor_resp_le. lra.
Qed.

(** The constructor keeps every channel within [0, 255]. *)
Lemma channel_range (c : Q) : 0 <= channel c <= 255.
Proof.
  unfold channel. qcase.
  - assert (Hr : (0 <= mathRound (Qmin 255 (Qmax c 0)) <= 1)%Z).
    { apply mathRound_range; change (inject_Z 0) with 0;
        change (inject_Z 1) with 1; [|lra].
      revert H. qminmax; intros; lra. }
    rewrite !Zle_Qle in Hr. change (inject_Z 0) with 0 in Hr.
    change (inject_Z 1) with 1 in Hr. lra.
  - qminmax; lra.
Qed.

Lemma tinycolor_inGamut (input : colorInput) : inGamut (tinycolor input).
Proof.
  unfold tinycolor.
  destruct input as [fmt r g b a | h s l a |].
  - unfold rgbToRgb. repeat split; apply channel_range.
  - destruct (hslToRgb _ _ _) as [[r g] b].
    repeat split; apply channel_range.
  - repeat split; apply channel_range.
Qed.

Lemma setAlpha_inGamut (c : color) (a : Q) : inGamut c -> inGamut (setAlpha c a).
Proof. intros H. exact H. Qed.

Lemma clone_inGamut (c : color) : inGamut (clone c).
Proof.
  unfold clone. destruct (_format c).
  - destruct (_a c <? 1); apply tinycolor_inGamut.
  - apply tinycolor_inGamut.
  - destruct (rgbToHsl _ _ _) as [[h s] l]. apply tinycolor_inGamut.
Qed.

Lemma applyModification_inGamut (fn : color -> color) (c : color) :
  inGamut (fn c) -> inGamut (applyModification fn c).
Proof. intros H. exact H. Qed.

Lemma spin_inGamut (amount : Q) (c : color) : inGamut (spin amount c).
Proof. apply applyModification_inGamut, tinycolor_inGamut. Qed.

Lemma lighten_inGamut (amount : Q) (c : color) : inGamut (lighten amount c).
Proof. apply applyModification_inGamut, tinycolor_inGamut. Qed.

Lemma darken_inGamut (amount : Q) (c : color) : inGamut (darken amount c).
Proof. apply applyModification_inGamut, tinycolor_inGamut. Qed.

Lemma saturate_inGamut (amount : Q) (c : color) : inGamut (saturate amount c).
Proof. apply applyModification_inGamut, tinycolor_inGamut. Qed.

Lemma mix_inGamut (c1 c2 : color) (amount : Q) : inGamut (mix c1 c2 amount).
Proof. apply tinycolor_inGamut. Qed.

Lemma jsmod_range (x m : Q) : 0 < m -> 0 <= x -> 0 <= jsmod x m < m.
Proof.
  intros Hm Hx. unfold jsmod.
  assert (Hq : x / m * m == x) by (field; lra).
  assert (Hq0 : 0 <= x / m) by (apply Qle_shift_div_l; lra).
  qcase; [lra|].
  pose proof (Qfloor_le (x / m)) as H1. pose proof (Qlt_floor (x / m)) as H2.
  rewrite inject_Z_plus in H2. change (inject_Z 1) with 1 in H2.
  split; nra.
Qed.

(** [bound01] of a number lies in [0, 1]. *)
Lemma bound01_num_range (v max : Q) : 0 < max -> 0 <= bound01 (Num v) max <= 1.
Proof.
  intros Hm. unfold bound01. qcase; [lra|].
  assert (Hn : 0 <= Qmin max (Qmax 0 v)) by (qminmax; lra).
  destruct (jsmod_range (Qmin max (Qmax 0 v)) max Hm Hn) as [H0 H1].
  split.
  - apply Qle_shift_div_l; lra.
  - apply Qle_shift_div_r; lra.
Qed.

(** A channel of integer value within [0, 255] passes unchanged through the
    constructor. *)
Lemma bound01_num_int (x : Q) (n : Z) :
  x == inject_Z n -> (0 <= n <= 255)%Z -> bound01 (Num x) 255 * 255 == inject_Z n.
Proof.
  intros Hx Hn. rewrite !Zle_Qle in Hn.
  change (inject_Z 0) with 0 in Hn. change (inject_Z 255) with 255 in Hn.
  unfold bound01.
  assert (Hv : Qmin 255 (Qmax 0 x) == inject_Z n) by (qminmax; lra).
  qcase.
  - apply Qabs_Qlt_condition in H.
    assert (Hlt : inject_Z 254 < inject_Z n)
      by (change (inject_Z 254) with 254; lra).
    rewrite <- Zlt_Qlt in Hlt.
    assert (Hle : (n <= 255)%Z)
      by (rewrite Zle_Qle; change (inject_Z 255) with 255; lra).
    assert (n = 255%Z) by lia. subst n. reflexivity.
  - assert (Hlt : Qmin 255 (Qmax 0 x) < 255).
    { destruct (Qlt_le_dec (Qmin 255 (Qmax 0 x)) 255) as [|Hge]; [assumption|].
      exfalso.
      pose proof (Qabs_pos (Qmin 255 (Qmax 0 x) - 255)) as Hp.
      assert (H0 : 0 <= Qmin 255 (Qmax 0 x) - 255) by lra.
      specialize (Hp H0). lra. }
    unfold jsmod.
    assert (Hq0 : 0 <= Qmin 255 (Qmax 0 x) / 255)
      by (apply Qle_shift_div_l; lra).
    assert (Hq1 : Qmin 255 (Qmax 0 x) / 255 < 1)
      by (apply Qlt_shift_div_r; lra).
    qcase; [lra|].
    rewrite (Qfloor_unique _ 0) by (change (inject_Z 0) with 0; lra).
    rewrite <- Hv. change (inject_Z 0) with 0. field.
Qed.

Lemma channel_int (y : Q) (n : Z) :
  y == inject_Z n -> (0 <= n <= 255)%Z -> channel y == inject_Z n.
Proof.
  intros Hy Hn. rewrite !Zle_Qle in Hn.
  change (inject_Z 0) with 0 in Hn. change (inject_Z 255) with 255 in Hn.
  unfold channel.
  assert (Hv : Qmin 255 (Qmax y 0) == inject_Z n) by (qminmax; lra).
  qcase; [|assumption].
  now rewrite (mathRound_int _ n).
Qed.

(** The rounded channel of a colour built from an integer channel value. *)
Lemma rgb_channel_int (x : Q) (n : Z) :
  x == inject_Z n -> (0 <= n <= 255)%Z ->
  mathRound (channel (bound01 (Num x) 255 * 255)) = n.
Proof.
  intros Hx Hn. apply mathRound_int, channel_int; [|assumption].
  now apply bound01_num_int.
Qed.

Lemma toHexString_ext (c1 c2 : color) :
  mathRound (_r c1) = mathRound (_r c2) ->
  mathRound (_g c1) = mathRound (_g c2) ->
  mathRound (_b c1) = mathRound (_b c2) ->
  toHexString c1 = toHexString c2.
Proof. intros Hr Hg Hb. unfold toHexString. now rewrite Hr, Hg, Hb. Qed.

Lemma inGamut_rounds (c : color) :
  inGamut c ->
  (0 <= mathRound (_r c) <= 255)%Z /\ (0 <= mathRound (_g c) <= 255)%Z
  /\ (0 <= mathRound (_b c) <= 255)%Z.
Proof.
  intros (Hr & Hg & Hb).
  split; [|split]; apply mathRound_range; tauto.
Qed.

(** Mixing at 0 percent gives the first colour, at 100 percent the second. *)
Lemma mix_0 (c1 c2 : color) (amount : Q) :
  inGamut c1 -> amount == 0 -> toHexString (mix c1 c2 amount) = toHexString c1.
Proof.
  intros Hg Ha. destruct (inGamut_rounds c1 Hg) as (Hr & Hgr & Hb).
  apply toHexString_ext; unfold mix, tinycolor, rgbToRgb, toRgb;
    cbn [_r _g _b rgb_r rgb_g rgb_b];
    apply rgb_channel_int; trivial; rewrite Ha; field.
Qed.

Lemma mix_100 (c1 c2 : color) (amount : Q) :
  inGamut c2 -> amount == 100 ->
  toHexString (mix c1 c2 amount) = toHexString c2.
Proof.
  intros Hg Ha. destruct (inGamut_rounds c2 Hg) as (Hr & Hgr & Hb).
  apply toHexString_ext; unfold mix, tinycolor, rgbToRgb, toRgb;
    cbn [_r _g _b rgb_r rgb_g rgb_b];
    apply rgb_channel_int; trivial; rewrite Ha; field.
Qed.

(** The hue [rgbToHsl] computes lies in [0, 1), saturation and lightness in
    [0, 1]. *)
Lemma rgbToHsl_range (r g b : Q) :
  let '(h, s, l) := rgbToHsl r g b in
  0 <= h < 1 /\ 0 <= s <= 1 /\ 0 <= l <= 1.
Proof.
  unfold rgbToHsl.
  pose proof (bound01_num_range r 255 eq_refl) as Hr.
  pose proof (bound01_num_range g 255 eq_refl) as Hg.
  pose proof (bound01_num_range b 255 eq_refl) as Hb.
  set (r' := bound01 (Num r) 255) in *.
  set (g' := bound01 (Num g) 255) in *.
  set (b' := bound01 (Num b) 255) in *.
  assert (Hmax : r' <= Qmax (Qmax r' g') b' /\ g' <= Qmax (Qmax r' g') b'
                 /\ b' <= Qmax (Qmax r' g') b' /\ Qmax (Qmax r' g') b' <= 1)
    by (qminmax; lra).
  assert (Hmin : Qmin (Qmin r' g') b' <= r' /\ Qmin (Qmin r' g') b' <= g'
                 /\ Qmin (Qmin r' g') b' <= b' /\ 0 <= Qmin (Qmin r' g') b')
    by (qminmax; lra).
  set (mx := Qmax (Qmax r' g') b') in *.
  set (mn := Qmin (Qmin r' g') b') in *.
  assert (Hl : 0 <= (mx + mn) / 2 <= 1).
  { split; [apply Qle_shift_div_l | apply Qle_shift_div_r]; lra. }
  destruct (Qeqb_spec mx mn) as [Heq|Hne]; cbv beta iota zeta.
  { repeat split; lra. }
  assert (Hd : 0 < mx - mn) by lra.
  assert (Hdiv : forall a, - (mx - mn) <= a <= mx - mn ->
            -1 <= a / (mx - mn) <= 1
            /\ (a < 0 -> a / (mx - mn) < 0) /\ (0 <= a -> 0 <= a / (mx - mn))).
  { intros a Ha. repeat split.
    - apply Qle_shift_div_l; lra.
    - apply Qle_shift_div_r; lra.
    - intros Hn. apply Qlt_shift_div_r; lra.
    - intros Hp. apply Qle_shift_div_l; lra. }
  assert (H2 : (mx + mn) / 2 * 2 == mx + mn) by field.
  split; [|split; [|exact Hl]].
  - assert (Hsix : forall x, 0 <= x < 6 -> 0 <= x / 6 < 1).
    { intros x Hx. split; [apply Qle_shift_div_l | apply Qlt_shift_div_r]; lra. }
    apply Hsix.
    destruct (Qeqb_spec mx r') as [Hmr|Hmr];
      [|destruct (Qeqb_spec mx g') as [Hmg|Hmg]].
    + destruct (Hdiv (g' - b')) as (H1 & H3 & H4); [lra|].
      destruct (Qltb_spec g' b') as [Hgb|Hgb];
        [specialize (H3 ltac:(lra)) | specialize (H4 ltac:(lra))]; lra.
    + destruct (Hdiv (b' - r')) as (H1 & _); [lra|]. lra.
    + destruct (Hdiv (r' - g')) as (H1 & _); [lra|]. lra.
  - destruct (Qltb_spec (1 / 2) ((mx + mn) / 2)) as [Hhalf|Hhalf].
    + split; [apply Qle_shift_div_l | apply Qle_shift_div_r]; lra.
    + assert (0 < mx + mn) by lra.
      split; [apply Qle_shift_div_l | apply Qle_shift_div_r]; lra.
Qed.

(** The hue [toHsl] reports lies in [0, 360). *)
Lemma toHsl_range (c : color) :
  0 <= hsl_h (toHsl c) < 360 /\ 0 <= hsl_s (toHsl c) <= 1
  /\ 0 <= hsl_l (toHsl c) <= 1.
Proof.
  unfold toHsl. pose proof (rgbToHsl_range (_r c) (_g c) (_b c)) as H.
  destruct (rgbToHsl (_r c) (_g c) (_b c)) as [[h s] l].
  cbn [hsl_h hsl_s hsl_l]. lra.
Qed.

Lemma hue2rgb_const (p q t c : Q) : p == c -> q == c -> hue2rgb p q t == c.
Proof.
  intros Hp Hq. unfold hue2rgb.
  repeat match goal with
  | |- context [Qltb ?x ?y] => destruct (Qltb_spec x y)
  end; rewrite ?Hp, ?Hq; ring.
Qed.

(** At lightness 0 or 1 every channel [hslToRgb] computes is 0 or 255. *)
Lemma hslToRgb_extreme (h s l : cssUnit) (c : Q) :
  bound01 l 100 == c -> c == 0 \/ c == 1 ->
  let '(r, g, b) := hslToRgb h s l in
  r == c * 255 /\ g == c * 255 /\ b == c * 255.
Proof.
  intros Hl Hc. unfold hslToRgb.
  destruct (Qeqb_spec (bound01 s 100) 0) as [Hs|Hs]; cbv beta iota zeta.
  { rewrite Hl. repeat split; reflexivity. }
  set (s' := bound01 s 100) in *. set (l' := bound01 l 100) in *.
  assert (Hq : (if l' <? 1 / 2 then l' * (1 + s') else l' + s' - l' * s') == c).
  { destruct (Qltb_spec l' (1 / 2)) as [Hh|Hh]; destruct Hc as [Hc|Hc];
      change (1 / 2) with (1 # 2) in Hh;
      rewrite Hc in Hl; try (exfalso; lra); rewrite Hl, ?Hc; ring. }
  assert (Hp : 2 * l' - (if l' <? 1 / 2 then l' * (1 + s')
                         else l' + s' - l' * s') == c)
    by (rewrite Hq, Hl; ring).
  repeat split; rewrite (hue2rgb_const _ _ _ c Hp Hq); reflexivity.
Qed.

Lemma bound01_lightness_0 (l : Q) :
  l == 0 -> bound01 (convertToPercentage (Num l)) 100 == 0.
Proof.
  intros Hl. unfold convertToPercentage.
  destruct (Qleb_spec l 1) as [_|H]; [|lra]. unfold bound01.
  rewrite (Qfloor_unique _ 0).
  - reflexivity.
  - change (inject_Z 0) with 0. qminmax; lra.
  - change (inject_Z 0) with 0. qminmax; lra.
Qed.

Lemma bound01_lightness_100 (l : Q) :
  l == 100 -> bound01 (convertToPercentage (Num l)) 100 == 1.
Proof.
  intros Hl. unfold convertToPercentage.
  destruct (Qleb_spec l 1) as [H|_]; [lra|]. unfold bound01.
  destruct (Qltb_spec (Qabs (Qmin 100 (Qmax 0 l) - 100)) (1 # 1000000))
    as [_|H]; [reflexivity|].
  exfalso.
  assert (H0 : 0 <= Qmin 100 (Qmax 0 l) - 100) by (qminmax; lra).
  pose proof (Qabs_pos _ H0) as Hp.
  assert (Qmin 100 (Qmax 0 l) - 100 == 0) by (qminmax; lra). lra.
Qed.

(** The colour of lightness 0 is black and the colour of lightness 100 is
    white, whatever the hue and the saturation. *)
Lemma tinycolor_lightness_extreme (h : Q) (s : cssUnit) (l a : Q) :
  (l == 0 -> toHexString (tinycolor (HslInput h s (Num l) a)) = "#000000"%string)
  /\ (l == 100 ->
      toHexString (tinycolor (HslInput h s (Num l) a)) = "#ffffff"%string).
Proof.
  split; intros Hl.
  - pose proof (hslToRgb_extreme (Num h) (convertToPercentage s)
                  (convertToPercentage (Num l)) 0
                  (bound01_lightness_0 l Hl) (or_introl (Qeq_refl 0))) as H.
    unfold tinycolor.
    destruct (hslToRgb _ _ _) as [[r g] b]. destruct H as (Hr & Hg & Hb).
    unfold toHexString. cbn [_r _g _b].
    rewrite (mathRound_int (channel r) 0), (mathRound_int (channel g) 0),
      (mathRound_int (channel b) 0); [reflexivity|..];
      apply channel_int; (lia || (change (inject_Z 0) with 0; lra)).
  - pose proof (hslToRgb_extreme (Num h) (convertToPercentage s)
                  (convertToPercentage (Num l)) 1
                  (bound01_lightness_100 l Hl) (or_intror (Qeq_refl 1))) as H.
    unfold tinycolor.
    destruct (hslToRgb _ _ _) as [[r g] b]. destruct H as (Hr & Hg & Hb).
    unfold toHexString. cbn [_r _g _b].
    rewrite (mathRound_int (channel r) 255), (mathRound_int (channel g) 255),
      (mathRound_int (channel b) 255); [reflexivity|..];
      apply channel_int; (lia || (change (inject_Z 255) with 255; lra)).
Qed.

Lemma pad2_toString16_byte (n : Z) :
  (0 <= n <= 255)%Z -> isHexByte (pad2 (toString16 n)) = true.
Proof.
  intros Hn.
  assert (Hall : forallb (fun k => isHexByte (pad2 (toString16 (Z.of_nat k))))
                   (seq 0 256) = true) by (vm_compute; reflexivity).
  rewrite forallb_forall in Hall.
  rewrite <- (Z2Nat.id n) by lia. apply Hall, in_seq. lia.
Qed.

Lemma isHexByte_inv (s : string) :
  isHexByte s = true ->
  exists a b, s = String a (String b EmptyString)
              /\ isHexDigit a = true /\ isHexDigit b = true.
Proof.
  destruct s as [|a [|b [|c s]]]; try discriminate.
  cbn. intros H. apply andb_true_iff in H. now exists a, b.
Qed.

(** The text of a colour within gamut is well formed, and so is the text with
    a two-digit alpha suffix appended. *)
Lemma toHexString_isHexColor (c : color) :
  inGamut c ->
  isHexColor (toHexString c) = true
  /\ isHexColor (toHexString c ++ "33") = true.
Proof.
  intros (Hr & Hg & Hb). unfold toHexString.
  destruct (isHexByte_inv (pad2 (toString16 (mathRound (_r c)))))
    as (r1 & r2 & -> & Hr1 & Hr2).
  { apply pad2_toString16_byte, mathRound_range; tauto. }
  destruct (isHexByte_inv (pad2 (toString16 (mathRound (_g c)))))
    as (g1 & g2 & -> & Hg1 & Hg2).
  { apply pad2_toString16_byte, mathRound_range; tauto. }
  destruct (isHexByte_inv (pad2 (toString16 (mathRound (_b c)))))
    as (b1 & b2 & -> & Hb1 & Hb2).
  { apply pad2_toString16_byte, mathRound_range; tauto. }
  cbn. rewrite Hr1, Hr2, Hg1, Hg2, Hb1, Hb2. split; reflexivity.
Qed.

End TinycolorFacts.

(** ** The colour toolbox *)

Module ColorOpsFacts.
Import Tinycolor TinycolorFacts ColorOps.
Local Open Scope Q_scope.

Lemma generateGradient_valid (startColor endColor : colorInput) (steps : Z) :
  isValid (tinycolor startColor) = true -> isValid (tinycolor endColor) = true ->
  (2 <= steps)%Z ->
  generateGradient startColor endColor steps
  = map (fun i : nat =>
           toHexString
             (mix (tinycolor startColor) (tinycolor endColor)
                  (inject_Z (Z.of_nat i) / inject_Z (steps - 1) * 100)))
        (seq 0 (Z.to_nat steps)).
Proof.
  intros Hs He Hn. unfold generateGradient. rewrite Hs, He.
  assert (Hlt : (steps <? 2)%Z = false) by (apply Z.ltb_ge; lia).
  now rewrite Hlt.
Qed.

(** X6.  The linear gradient: for valid end colours and [steps >= 2],
    [generateGradient] returns exactly [steps] colour texts, every one well
    formed; the first is the text of the start colour and the last the text
    of the end colour. *)
Theorem generateGradient_contract (startColor endColor : colorInput)
    (steps : Z) :
  isValid (tinycolor startColor) = true -> isValid (tinycolor endColor) = true ->
  (2 <= steps)%Z ->
  let g := generateGradient startColor endColor steps in
  Z.of_nat (length g) = steps
  /\ Forall (fun text => isHexColor text = true) g
  /\ nth_error g 0 = Some (toHexString (tinycolor startColor))
  /\ nth_error g (Z.to_nat steps - 1) = Some (toHexString (tinycolor endColor)).
Proof.
  intros Hs He Hn g. subst g. rewrite generateGradient_valid by assumption.
  assert (Hnth : forall i : nat, (i < Z.to_nat steps)%nat ->
    nth_error
      (map (fun i : nat =>
              toHexString
                (mix (tinycolor startColor) (tinycolor endColor)
                     (inject_Z (Z.of_nat i) / inject_Z (steps - 1) * 100)))
           (seq 0 (Z.to_nat steps))) i
    = Some (toHexString
              (mix (tinycolor startColor) (tinycolor endColor)
                   (inject_Z (Z.of_nat i) / inject_Z (steps - 1) * 100)))).
  { intros i Hi. rewrite nth_error_map.
    rewrite (nth_error_nth' _ 0%nat) by (now rewrite length_seq).
    now rewrite seq_nth. }
  assert (Hd : ~ inject_Z (steps - 1) == 0).
  { change 0 with (inject_Z 0). rewrite inject_Z_injective. lia. }
  split; [rewrite length_map, length_seq; lia|].
  split; [|split].
  - apply Forall_forall. intros text Hin. apply in_map_iff in Hin as [i [<- _]].
    apply toHexString_isHexColor, mix_inGamut.
  - rewrite Hnth by lia. f_equal. apply mix_0; [apply tinycolor_inGamut|].
    change (inject_Z (Z.of_nat 0)) with 0. now field.
  - rewrite Hnth by lia. f_equal. apply mix_100; [apply tinycolor_inGamut|].
    replace (Z.of_nat (Z.to_nat steps - 1)) with (steps - 1)%Z by lia.
    now field.
Qed.

Lemma generateGradient_contract_red_blue :
  let g := generateGradient (RgbInput FmtHex 255 0 0 1)
             (RgbInput FmtHex 0 0 255 1) 5 in
  Z.of_nat (length g) = 5%Z
  /\ Forall (fun text => isHexColor text = true) g
  /\ nth_error g 0 = Some (toHexString (tinycolor (RgbInput FmtHex 255 0 0 1)))
  /\ nth_error g (Z.to_nat 5 - 1)
     = Some (toHexString (tinycolor (RgbInput FmtHex 0 0 255 1))).
Proof.
  apply (generateGradient_contract (RgbInput FmtHex 255 0 0 1)
           (RgbInput FmtHex 0 0 255 1) 5); [reflexivity | reflexivity | lia].
Defined.

(** X7.  The gradient is empty exactly on a failure: [generateGradient]
    returns the empty list if and only if [steps < 2] or one of the two
    colours is not valid. *)
Theorem generateGradient_empty_iff (startColor endColor : colorInput)
    (steps : Z) :
  generateGradient startColor endColor steps = []
  <-> ((steps < 2)%Z \/ isValid (tinycolor startColor) = false
       \/ isValid (tinycolor endColor) = false).
Proof.
  unfold generateGradient.
  destruct (isValid (tinycolor startColor)); cbn [negb orb]; [|tauto].
  destruct (isValid (tinycolor endColor)); cbn [negb orb]; [|tauto].
  destruct (Z.ltb_spec steps 2) as [Hlt|Hge]; [tauto|].
  split.
  - intros H. apply (f_equal (@length _)) in H.
    rewrite length_map, length_seq in H. cbn [length] in H. lia.
  - intros [H|[H|H]]; (lia || discriminate).
Qed.

(** A colour without saturation has no hue: the hue of an HSL object whose
    saturation is read as 0 does not matter. *)
Lemma tinycolor_unsaturated (h h' : Q) (s l : cssUnit) (a : Q) :
  (bound01 (convertToPercentage s) 100 =? 0) = true ->
  tinycolor (HslInput h s l a) = tinycolor (HslInput h' s l a).
Proof.
  intros H. unfold tinycolor, hslToRgb. cbv zeta. now rewrite H.
Qed.

(** The temperature shift of a grey, whatever the hue it is handed. *)
Lemma adjustTemperature_grey (v : Z) (amount : Q) :
  (0 <= v <= 255)%Z ->
  adjustTemperature (grey v) amount
  = Some (toHexString
            (tinycolor (grey (if (v <=? 2)%Z then 100 * v else v)))).
Proof.
  intros Hv.
  assert (Hall : forallb (fun k : nat =>
      let v := Z.of_nat k in
      let hsl := toHsl (tinycolor (grey v)) in
      (bound01 (convertToPercentage (Num (hsl_s hsl * 100))) 100 =? 0)
      && String.eqb
           (toHexString
              (tinycolor (HslInput 0 (Num (hsl_s hsl * 100))
                                   (Num (hsl_l hsl * 100)) 1)))
           (toHexString
              (tinycolor (grey (if (v <=? 2)%Z then 100 * v else v)))))
      (seq 0 256) = true) by (vm_compute; reflexivity).
  rewrite forallb_forall in Hall.
  specialize (Hall (Z.to_nat v) ltac:(apply in_seq; lia)).
  rewrite Z2Nat.id in Hall by lia. cbv zeta in Hall.
  apply andb_true_iff in Hall as [Hs Htext]. apply String.eqb_eq in Htext.
  unfold adjustTemperature.
  change (isValid (tinycolor (grey v))) with true. cbn [negb].
  rewrite <- Htext. do 2 f_equal. now apply tinycolor_unsaturated.
Qed.

(** X9.  The temperature shift: [adjustTemperature] returns nothing exactly
    for an invalid colour, and a well-formed colour text otherwise.  It does
    not keep the lightness of a dark colour: [hsl.l * 100] is handed to the
    colour library as a number, and the library reads a number up to 1 as a
    fraction, not as a percentage.  So, at every amount in [-100, 100], the
    greys #010101 and #020202 come back a hundred times lighter, as #646464
    and #c8c8c8, while every other grey comes back as it is. *)
Theorem adjustTemperature_contract (color : colorInput) (amount : Q) :
  -100 <= amount <= 100 ->
  (adjustTemperature color amount = None
   <-> isValid (tinycolor color) = false)
  /\ (forall text, adjustTemperature color amount = Some text ->
        isHexColor text = true)
  /\ (forall v : Z, (0 <= v <= 255)%Z ->
        adjustTemperature (grey v) amount
        = Some (toHexString
                  (tinycolor (grey (if (v <=? 2)%Z then 100 * v else v)))))
  /\ adjustTemperature (grey 1) amount = Some "#646464"%string
  /\ adjustTemperature (grey 2) amount = Some "#c8c8c8"%string.
Proof.
  intros _. split; [|split; [|split; [|split]]].
  - unfold adjustTemperature.
    destruct (isValid (tinycolor color)); cbn [negb]; split;
      (discriminate || reflexivity).
  - unfold adjustTemperature.
    destruct (isValid (tinycolor color)); cbn [negb]; [|discriminate].
    intros text H. injection H as <-.
    apply toHexString_isHexColor, tinycolor_inGamut.
  - intros v Hv. now apply adjustTemperature_grey.
  - rewrite adjustTemperature_grey by lia. vm_compute. reflexivity.
  - rewrite adjustTemperature_grey by lia. vm_compute. reflexivity.
Qed.

Lemma adjustTemperature_contract_warm :
  (adjustTemperature (RgbInput FmtHex 60 0 10 1) 50 = None
   <-> isValid (tinycolor (RgbInput FmtHex 60 0 10 1)) = false)
  /\ (forall text, adjustTemperature (RgbInput FmtHex 60 0 10 1) 50
                   = Some text ->
        isHexColor text = true)
  /\ (forall v : Z, (0 <= v <= 255)%Z ->
        adjustTemperature (grey v) 50
        = Some (toHexString
                  (tinycolor (grey (if (v <=? 2)%Z then 100 * v else v)))))
  /\ adjustTemperature (grey 1) 50 = Some "#646464"%string
  /\ adjustTemperature (grey 2) 50 = Some "#c8c8c8"%string.
Proof.
  apply (adjustTemperature_contract (RgbInput FmtHex 60 0 10 1) 50). lra.
Defined.

(** X10.  Harmonies: [generateHarmony] returns nothing exactly for an
    invalid base colour; for a valid one it returns the base colour's text
    followed by one text per hue spin of the scheme, five texts in all for
    the analogous scheme, two for the complementary, three for the triadic
    and the split-complementary, four for the tetradic and the square one;
    every text is well formed, and the tetradic and the square scheme give
    the same colours. *)
Theorem generateHarmony_contract (baseColor : colorInput) (type : harmonyType) :
  let base := tinycolor baseColor in
  (generateHarmony baseColor type = None <-> isValid base = false)
  /\ (forall h, generateHarmony baseColor type = Some h ->
        length (colors h)
        = match type with
          | Analogous => 5 | Complementary => 2 | Triadic => 3
          | Tetradic => 4 | SplitComplementary => 3 | Square => 4
          end%nat
        /\ nth_error (colors h) 0 = Some (toHexString base)
        /\ Forall (fun text => isHexColor text = true) (colors h))
  /\ option_map colors (generateHarmony baseColor Tetradic)
     = option_map colors (generateHarmony baseColor Square).
Proof.
  intros base. unfold generateHarmony. fold base.
  split; [|split; [|destruct (isValid base); reflexivity]].
  - destruct (isValid base); cbn [negb]; split;
      (discriminate || reflexivity).
  - destruct (isValid base); cbn [negb]; [|discriminate].
    intros h H. injection H as <-.
    split; [destruct type; reflexivity|].
    split; [destruct type; reflexivity|].
    pose proof (toHexString_isHexColor base (tinycolor_inGamut baseColor))
      as [Hb _].
    assert (Hspin : forall d,
              isHexColor (toHexString (spin d (clone base))) = true).
    { intros d. apply toHexString_isHexColor, spin_inGamut. }
    destruct type; cbn [colors]; repeat constructor;
      lazymatch goal with
      | |- isHexColor (toHexString (spin _ _)) = true => apply Hspin
      | |- isHexColor (toHexString base) = true => exact Hb
      end.
Qed.

Lemma filter_valid_nil (colors : list colorInput) :
  filter isValid (map tinycolor colors) = []
  <-> Forall (fun c => isValid (tinycolor c) = false) colors.
Proof.
  induction colors as [|c colors IH]; cbn [map filter].
  - split; [constructor | reflexivity].
  - destruct (isValid (tinycolor c)) eqn:E.
    + split; [discriminate|]. intros H. inversion H. congruence.
    + rewrite IH. split; [now constructor | intros H; now inversion H].
Qed.

Lemma filter_valid_idem (colors : list colorInput) :
  filter isValid
    (map tinycolor (filter (fun c => isValid (tinycolor c)) colors))
  = filter isValid (map tinycolor colors).
Proof.
  induction colors as [|c colors IH]; [reflexivity|].
  cbn [map filter]. destruct (isValid (tinycolor c)) eqn:E.
  - cbn [map filter]. now rewrite E, IH.
  - exact IH.
Qed.

Lemma blendColors_valid (colors : list colorInput) (mode : blendMode) :
  blendColors colors mode
  = match filter isValid (map tinycolor colors) with
    | [] => None
    | first :: rest =>
        match mode with
        | Average =>
            let '(r, g, b) := sumRgb (first :: rest) in
            let count := inject_Z (Z.of_nat (length (first :: rest))) in
            Some (toHexString (ofRgb (inject_Z r / count) (inject_Z g / count)
                                     (inject_Z b / count)))
        | Multiply => Some (toHexString (fold_left multiplyStep rest first))
        | Screen => Some (toHexString (fold_left screenStep rest first))
        end
    end.
Proof.
  unfold blendColors. destruct colors as [|c colors]; [reflexivity|].
  cbn [length Nat.eqb].
  destruct (filter isValid (map tinycolor (c :: colors))); reflexivity.
Qed.

(** X11.  Blending skips what is not a colour: [blendColors] returns
    nothing exactly when no entry of the list is a valid colour (the empty
    list included), and in every mode the result is the one for the list
    with its invalid entries removed. *)
Theorem blendColors_invalid_entries (colors : list colorInput)
    (mode : blendMode) :
  (blendColors colors mode = None
   <-> Forall (fun c => isValid (tinycolor c) = false) colors)
  /\ blendColors colors mode
     = blendColors (filter (fun c => isValid (tinycolor c)) colors) mode.
Proof.
  split.
  - rewrite blendColors_valid, <- filter_valid_nil.
    destruct (filter isValid (map tinycolor colors)) as [|first rest].
    + tauto.
    + split; [|discriminate].
      destruct mode; [destruct (sumRgb _) as [[r g] b]| |]; discriminate.
  - now rewrite !blendColors_valid, filter_valid_idem.
Qed.

(** The text of the colour made of the rounded channels of a colour. *)
Lemma ofRgb_rounded (c : color) (r g b : Q) :
  inGamut c ->
  r == inject_Z (mathRound (_r c)) -> g == inject_Z (mathRound (_g c)) ->
  b == inject_Z (mathRound (_b c)) ->
  toHexString (ofRgb r g b) = toHexString c.
Proof.
  intros Hc Hr Hg Hb. destruct (inGamut_rounds c Hc) as (H1 & H2 & H3).
  apply toHexString_ext; unfold ofRgb, tinycolor, rgbToRgb;
    cbn [_r _g _b]; now apply rgb_channel_int.
Qed.

(** X12.  Neutral colours of blending: for a valid colour [c], every mode
    applied to [c] alone gives the text of [c]; multiplying [c] with white
    and screening [c] with black give the text of [c] too, and the average
    of [c] with itself as well. *)
Theorem blendColors_neutral (c : colorInput) :
  isValid (tinycolor c) = true ->
  (forall mode, blendColors [c] mode = Some (toHexString (tinycolor c)))
  /\ blendColors [c; white] Multiply = Some (toHexString (tinycolor c))
  /\ blendColors [c; black] Screen = Some (toHexString (tinycolor c))
  /\ blendColors [c; c] Average = Some (toHexString (tinycolor c)).
Proof.
  intros Hv. pose proof (tinycolor_inGamut c) as Hg.
  assert (Hw : toRgb (tinycolor white) = mkRgba 255 255 255 1)
    by (vm_compute; reflexivity).
  assert (Hb : toRgb (tinycolor black) = mkRgba 0 0 0 1)
    by (vm_compute; reflexivity).
  split; [|split; [|split]].
  - intros mode. rewrite blendColors_valid. cbn [map filter]. rewrite Hv.
    destruct mode; cbn [fold_left]; [|reflexivity|reflexivity].
    unfold sumRgb. cbn [fold_left toRgb rgb_r rgb_g rgb_b length].
    f_equal. apply ofRgb_rounded; trivial;
      change (inject_Z (Z.of_nat 1)) with 1; rewrite Z.add_0_l; field.
  - rewrite blendColors_valid. cbn [map filter]. rewrite Hv.
    change (isValid (tinycolor white)) with true. cbn [fold_left].
    f_equal. unfold multiplyStep. rewrite Hw.
    cbn [toRgb rgb_r rgb_g rgb_b].
    apply ofRgb_rounded; trivial; rewrite inject_Z_mult;
      change (inject_Z 255) with 255; field.
  - rewrite blendColors_valid. cbn [map filter]. rewrite Hv.
    change (isValid (tinycolor black)) with true. cbn [fold_left].
    f_equal. unfold screenStep. rewrite Hb.
    cbn [toRgb rgb_r rgb_g rgb_b].
    apply ofRgb_rounded; trivial;
      rewrite Z.sub_0_r, inject_Z_mult, <- !Z.add_opp_r, inject_Z_plus,
        inject_Z_opp; change (inject_Z 255) with 255; field.
  - rewrite blendColors_valid. cbn [map filter]. rewrite Hv.
    unfold sumRgb. cbn [fold_left toRgb rgb_r rgb_g rgb_b length].
    f_equal. apply ofRgb_rounded; trivial;
      change (inject_Z (Z.of_nat 2)) with 2;
      rewrite Z.add_0_l, inject_Z_plus; field.
Qed.

Lemma blendColors_neutral_red :
  (forall mode, blendColors [RgbInput FmtHex 255 0 0 1] mode
                = Some (toHexString (tinycolor (RgbInput FmtHex 255 0 0 1))))
  /\ blendColors [RgbInput FmtHex 255 0 0 1; white] Multiply
     = Some (toHexString (tinycolor (RgbInput FmtHex 255 0 0 1)))
  /\ blendColors [RgbInput FmtHex 255 0 0 1; black] Screen
     = Some (toHexString (tinycolor (RgbInput FmtHex 255 0 0 1)))
  /\ blendColors [RgbInput FmtHex 255 0 0 1; RgbInput FmtHex 255 0 0 1] Average
     = Some (toHexString (tinycolor (RgbInput FmtHex 255 0 0 1))).
Proof.
  apply (blendColors_neutral (RgbInput FmtHex 255 0 0 1)). reflexivity.
Defined.

(** X13.  The perceived brightness lies in [0, 1]: it is 0 for an invalid
    colour and for black, 1 for white. *)
Theorem getPerceivedBrightness_range (color : colorInput) :
  0 <= getPerceivedBrightness color <= 1
  /\ (isValid (tinycolor color) = false -> getPerceivedBrightness color == 0)
  /\ getPerceivedBrightness black == 0
  /\ getPerceivedBrightness white == 1.
Proof.
  split; [|split; [|split; reflexivity]].
  - unfold getPerceivedBrightness.
    destruct (isValid (tinycolor color)); cbn [negb]; [|lra].
    destruct (inGamut_rounds _ (tinycolor_inGamut color)) as (Hr & Hg & Hb).
    rewrite !Zle_Qle in Hr, Hg, Hb.
    change (inject_Z 0) with 0 in *. change (inject_Z 255) with 255 in *.
    cbn [toRgb rgb_r rgb_g rgb_b].
    split; [apply Qle_shift_div_l | apply Qle_shift_div_r]; lra.
  - intros H. unfold getPerceivedBrightness. rewrite H. reflexivity.
Qed.

(** X14.  The monochromatic palette: for a valid base colour and
    [count >= 2], [generateMonochromatic] returns [count] well-formed colour
    texts, the first one black and the last one white; for an invalid base
    colour, or a count below 1, it returns the empty list. *)
Theorem generateMonochromatic_contract (baseColor : colorInput) (count : Z) :
  (isValid (tinycolor baseColor) = false \/ (count < 1)%Z ->
   generateMonochromatic baseColor count = [])
  /\ (isValid (tinycolor baseColor) = true -> (2 <= count)%Z ->
      let palette := generateMonochromatic baseColor count in
      Z.of_nat (length palette) = count
      /\ Forall (fun text => isHexColor text = true) palette
      /\ nth_error palette 0 = Some "#000000"%string
      /\ nth_error palette (Z.to_nat count - 1) = Some "#ffffff"%string).
Proof.
  unfold generateMonochromatic. split.
  - intros [H|H]; [now rewrite H|].
    destruct (isValid (tinycolor baseColor)); cbn [negb]; [|reflexivity].
    destruct (Z.eqb_spec count 1) as [E|_]; [lia|].
    replace (Z.to_nat count) with 0%nat by lia. reflexivity.
  - intros Hv Hc. rewrite Hv. cbn [negb].
    destruct (Z.eqb_spec count 1) as [E|_]; [lia|].
    set (f := fun i : nat => _).
    assert (Hnth : forall i, (i < Z.to_nat count)%nat ->
              nth_error (map f (seq 0 (Z.to_nat count))) i = Some (f i)).
    { intros i Hi. rewrite nth_error_map.
      rewrite (nth_error_nth' _ 0%nat) by (now rewrite length_seq).
      now rewrite seq_nth. }
    assert (Hd : ~ inject_Z (count - 1) == 0).
    { change 0 with (inject_Z 0). rewrite inject_Z_injective. lia. }
    cbv zeta. split; [rewrite length_map, length_seq; lia|].
    split; [|split].
    + apply Forall_forall. intros text Hin.
      apply in_map_iff in Hin as [i [<- _]]. subst f. cbv beta.
      apply toHexString_isHexColor, tinycolor_inGamut.
    + rewrite Hnth by lia. f_equal. subst f. cbv beta.
      apply tinycolor_lightness_extreme.
      change (inject_Z (Z.of_nat 0)) with 0. ring.
    + rewrite Hnth by lia. f_equal. subst f. cbv beta.
      apply tinycolor_lightness_extreme.
      replace (Z.of_nat (Z.to_nat count - 1)) with (count - 1)%Z by lia.
      now field.
Qed.

Lemma generateMonochromatic_contract_red :
  let palette := generateMonochromatic (RgbInput FmtHex 255 0 0 1) 9 in
  Z.of_nat (length palette) = 9%Z
  /\ Forall (fun text => isHexColor text = true) palette
  /\ nth_error palette 0 = Some "#000000"%string
  /\ nth_error palette (Z.to_nat 9 - 1) = Some "#ffffff"%string.
Proof.
  apply (generateMonochromatic_contract (RgbInput FmtHex 255 0 0 1) 9);
    [reflexivity | lia].
Defined.

End ColorOpsFacts.

(** ** Arithmetic with rounding *)

Module RoundingFacts.
Import TinycolorFacts Rounding.
Local Open Scope Q_scope.

Lemma eps_bound : 0 < eps /\ eps <= 2 # 10000000000000000.
Proof. split; reflexivity || (vm_compute; discriminate). Qed.

Lemma eta_bound : 0 < eta /\ eta <= 1 # 100000000000000000000.
Proof. split; reflexivity || (vm_compute; discriminate). Qed.

Section Faithful.
Variable rnd : Q -> Q.
Hypothesis Hf : faithful rnd.

Lemma rnd_proper (x y : Q) : x == y -> rnd x == rnd y.
Proof.
  destruct Hf as (Hm & _). intros E. apply Qle_antisym; apply Hm; lra.
Qed.

Lemma rnd_between (a b : Z) (x : Q) :
  (Z.abs a <= 2 ^ 53)%Z -> (Z.abs b <= 2 ^ 53)%Z ->
  inject_Z a <= x <= inject_Z b -> inject_Z a <= rnd x <= inject_Z b.
Proof.
  destruct Hf as (Hm & Hi & _). intros Ha Hb [H1 H2].
  pose proof (Hi a Ha). pose proof (Hi b Hb).
  pose proof (Hm _ _ H1). pose proof (Hm _ _ H2). lra.
Qed.

Lemma rnd_int (z : Z) (x : Q) :
  (Z.abs z <= 2 ^ 53)%Z -> x == inject_Z z -> rnd x == inject_Z z.
Proof.
  destruct Hf as (_ & Hi & _). intros Hz E.
  rewrite (rnd_proper _ _ E). now apply Hi.
Qed.

Lemma rnd_near (x B : Q) :
  - B <= x <= B -> - (eps * B + eta) <= rnd x - x <= eps * B + eta.
Proof.
  destruct Hf as (_ & _ & He). intros HB.
  assert (Hx : Qabs x <= B) by (apply Qabs_Qle_condition; lra).
  pose proof (He x) as H. destruct eps_bound as [He0 _].
  assert (H' : Qabs (rnd x - x) <= eps * B + eta) by nra.
  apply Qabs_Qle_condition in H'. lra.
Qed.

End Faithful.
(** Rounding to the grid is faithful: the hypothesis of this section can
    be met by a function that does round. *)
Lemma toGrid_faithful : faithful toGrid.
Proof.
  unfold faithful, toGrid. set (G := (2 ^ 1074)%Z).
  assert (HG : 0 < inject_Z G) by (unfold G; reflexivity).
  assert (Heta : eta * inject_Z G == 1 # 2)
    by (unfold G; vm_compute; reflexivity).
  clearbody G. set (g := inject_Z G) in *.
  assert (Hdiv : forall n : Z, inject_Z n / g * g == inject_Z n)
    by (intros n; field; lra).
  split; [|split].
  - intros x y Hxy.
    assert (Hfl : (Qfloor (x * g + (1 # 2)) <= Qfloor (y * g + (1 # 2)))%Z)
      by (apply Qfloor_resp_le; nra).
    rewrite Zle_Qle in Hfl.
    pose proof (Hdiv (Qfloor (x * g + (1 # 2)))).
    pose proof (Hdiv (Qfloor (y * g + (1 # 2)))). nra.
  - intros z _.
    rewrite (Qfloor_unique _ (z * G)).
    + unfold g. rewrite inject_Z_mult. field. fold g. lra.
    + rewrite inject_Z_mult. fold g. lra.
    + rewrite inject_Z_mult. fold g. lra.
  - intros x. destruct eps_bound as [He0 _].
    pose proof (Qabs_nonneg x) as Hx.
    pose proof (Qfloor_le (x * g + (1 # 2))) as H1.
    pose proof (Qlt_floor (x * g + (1 # 2))) as H2.
    rewrite inject_Z_plus in H2. change (inject_Z 1) with 1 in H2.
    pose proof (Hdiv (Qfloor (x * g + (1 # 2)))) as H3.
    set (r := inject_Z (Qfloor (x * g + (1 # 2))) / g) in *.
    assert (Hr : Qabs (r - x) <= eta).
    { apply Qabs_Qle_condition. split; nra. }
    nra.
Qed.

End RoundingFacts.

(** ** The hue interpolation, rounding included *)

Module ColorOpsRoundedFacts.
Import Tinycolor TinycolorFacts Rounding RoundingFacts ColorOpsRounded.
Local Open Scope Q_scope.

(** The side condition of [rnd_between] and [rnd_int] on a literal. *)
Ltac small := vm_compute; intro; discriminate.

(** Without rounding the function is the one of the colour toolbox. *)
Lemma interpolateHue_exact (start end_ t : Q) :
  interpolateHue (fun x => x) start end_ t
  = ColorOps.interpolateHue start end_ t.
Proof. reflexivity. Qed.

Section Faithful.
Variable rnd : Q -> Q.
Hypothesis Hf : faithful rnd.

(** The second half of [interpolateHue]: the step along the arc and the two
    wraps into [0, 360). *)
Lemma interpolateHue_wrap (start t d : Q) :
  0 <= start < 360 -> 0 <= t <= 1 -> -180 <= d <= 180 ->
  let result := rnd (start + rnd (d * t)) in
  let result := if result <? 0 then rnd (result + 360) else result in
  let result := if 360 <=? result then rnd (result - 360) else result in
  0 <= result < 360
  /\ (exists j : Z,
        Qabs (result - (start + t * d + 360 * inject_Z j))
        <= 1 # 2000000000000)
  /\ (t == 0 -> rnd start == start -> result == start).
Proof.
  intros Hs Ht Hd. cbv zeta.
  destruct eps_bound as [He0 He1]. destruct eta_bound as [Hn0 Hn1].
  set (p := rnd (d * t)).
  assert (Hdt : -180 <= d * t <= 180) by nra.
  pose proof (rnd_between rnd Hf (-180) 180 (d * t) ltac:(small) ltac:(small)
                ltac:(unfold inject_Z; lra)) as Bp.
  pose proof (rnd_near rnd Hf (d * t) 180 ltac:(lra)) as Np. fold p in Bp, Np.
  unfold inject_Z in Bp.
  set (u := rnd (start + p)).
  pose proof (rnd_between rnd Hf (-180) 540 (start + p) ltac:(small)
                ltac:(small) ltac:(unfold inject_Z; lra)) as Bu.
  pose proof (rnd_near rnd Hf (start + p) 540 ltac:(lra)) as Nu.
  fold u in Bu, Nu. unfold inject_Z in Bu.
  assert (H0 : t == 0 -> rnd start == start -> u == start).
  { intros E0 Es.
    assert (Ep : p == 0).
    { apply (rnd_int rnd Hf 0); [small|]. unfold inject_Z. nra. }
    unfold u. rewrite <- Es at 2. apply (rnd_proper rnd Hf). lra. }
  destruct (Qltb_spec u 0) as [Hneg|Hpos].
  - set (r := rnd (u + 360)).
    pose proof (rnd_between rnd Hf 180 360 (u + 360) ltac:(small)
                  ltac:(small) ltac:(unfold inject_Z; lra)) as Br.
    pose proof (rnd_near rnd Hf (u + 360) 360 ltac:(lra)) as Nr.
    fold r in Br, Nr. unfold inject_Z in Br.
    destruct (Qleb_spec 360 r) as [Hw|Hw].
    + assert (E : rnd (r - 360) == 0).
      { apply (rnd_int rnd Hf 0); [small|]. unfold inject_Z. lra. }
      split; [lra|]. split.
      * exists 0%Z. apply Qabs_Qle_condition. unfold inject_Z. lra.
      * intros E0 Es. specialize (H0 E0 Es). lra.
    + split; [lra|]. split.
      * exists 1%Z. apply Qabs_Qle_condition. unfold inject_Z. lra.
      * intros E0 Es. specialize (H0 E0 Es). lra.
  - destruct (Qleb_spec 360 u) as [Hw|Hw].
    + set (r := rnd (u - 360)).
      pose proof (rnd_between rnd Hf 0 180 (u - 360) ltac:(small)
                    ltac:(small) ltac:(unfold inject_Z; lra)) as Br.
      pose proof (rnd_near rnd Hf (u - 360) 180 ltac:(lra)) as Nr.
      fold r in Br, Nr. unfold inject_Z in Br.
      split; [lra|]. split.
      * exists (-1)%Z. apply Qabs_Qle_condition. unfold inject_Z. lra.
      * intros E0 Es. specialize (H0 E0 Es). lra.
    + split; [lra|]. split.
      * exists 0%Z. apply Qabs_Qle_condition. unfold inject_Z. lra.
      * intros E0 Es. now apply H0.
Qed.

(** From hue 350 halfway toward hue 30: every step is exact. *)
Lemma interpolateHue_350 (start end_ t : Q) :
  start == 350 -> end_ == 30 -> t == 1 # 2 ->
  interpolateHue rnd start end_ t == 10.
Proof.
  intros Es Ee Et. unfold interpolateHue.
  assert (E0 : rnd (end_ - start) == -320).
  { apply (rnd_int rnd Hf (-320)); [small|]. unfold inject_Z. lra. }
  assert (E1 : rnd (rnd (end_ - start) + 360) == 40).
  { apply (rnd_int rnd Hf 40); [small|]. unfold inject_Z. lra. }
  assert (E2 : rnd (rnd (rnd (end_ - start) + 360) * t) == 20).
  { apply (rnd_int rnd Hf 20); [small|]. unfold inject_Z. nra. }
  assert (E3 : rnd (start + rnd (rnd (rnd (end_ - start) + 360) * t)) == 370).
  { apply (rnd_int rnd Hf 370); [small|]. unfold inject_Z. lra. }
  assert (E4 : rnd (rnd (start + rnd (rnd (rnd (end_ - start) + 360) * t))
                    - 360) == 10).
  { apply (rnd_int rnd Hf 10); [small|]. unfold inject_Z. lra. }
  destruct (Qltb_spec 180 (rnd (end_ - start))); [lra|].
  destruct (Qltb_spec (rnd (end_ - start)) (-180)); [|lra].
  destruct (Qltb_spec
              (rnd (start + rnd (rnd (rnd (end_ - start) + 360) * t))) 0);
    [lra|].
  destruct (Qleb_spec 360
              (rnd (start + rnd (rnd (rnd (end_ - start) + 360) * t))));
    lra.
Qed.

(** X8.  Hue interpolation, rounding included: with every operation rounded
    to the nearest binary64 number, for a start hue in [0, 360), an end hue
    in [0, 360] and a fraction [t] in [0, 1], [interpolateHue] returns a hue
    in [0, 360) that lies, up to 1e-12 of a degree, at the fraction [t] of
    the shorter arc from the start hue to the end hue.  At [t = 0] it returns
    the start hue itself, and from hue 350 halfway toward hue 30 it returns
    hue 10 exactly. *)
Theorem interpolateHue_contract (start end_ t : Q) :
  0 <= start < 360 -> 0 <= end_ <= 360 -> 0 <= t <= 1 ->
  let hue := interpolateHue rnd start end_ t in
  0 <= hue < 360
  /\ nearShortArc start end_ t hue
  /\ (t == 0 -> rnd start == start -> hue == start)
  /\ (start == 350 -> end_ == 30 -> t == 1 # 2 -> hue == 10).
Proof.
  intros Hs He Ht hue.
  split; [|split; [|split]]; [| | |now apply interpolateHue_350].
  all: subst hue; unfold interpolateHue, nearShortArc.
  all: destruct eps_bound as [He0 He1]; destruct eta_bound as [Hn0 Hn1].
  all: set (d0 := rnd (end_ - start)).
  all: pose proof (rnd_between rnd Hf (-360) 360 (end_ - start) ltac:(small)
                     ltac:(small) ltac:(unfold inject_Z; lra)) as B0;
    pose proof (rnd_near rnd Hf (end_ - start) 360 ltac:(lra)) as N0;
    fold d0 in B0, N0; unfold inject_Z in B0.
  all: destruct (Qltb_spec 180 d0) as [Hd|Hd];
    [|destruct (Qltb_spec d0 (-180)) as [Hd'|Hd']].
  all: try (set (d1 := rnd (d0 - 360));
            pose proof (rnd_between rnd Hf (-180) 0 (d0 - 360) ltac:(small)
                          ltac:(small) ltac:(unfold inject_Z; lra)) as B1;
            pose proof (rnd_near rnd Hf (d0 - 360) 180 ltac:(lra)) as N1;
            fold d1 in B1, N1; unfold inject_Z in B1).
  all: try (set (d1 := rnd (d0 + 360));
            pose proof (rnd_between rnd Hf 0 180 (d0 + 360) ltac:(small)
                          ltac:(small) ltac:(unfold inject_Z; lra)) as B1;
            pose proof (rnd_near rnd Hf (d0 + 360) 180 ltac:(lra)) as N1;
            fold d1 in B1, N1; unfold inject_Z in B1).
  - apply (interpolateHue_wrap start t d1); trivial; lra.
  - apply (interpolateHue_wrap start t d1); trivial; lra.
  - apply (interpolateHue_wrap start t d0); trivial; lra.
  - destruct (interpolateHue_wrap start t d1 Hs Ht ltac:(lra))
      as (_ & [j Hj] & _).
    exists d1, (-1)%Z, j. split; [lra|]. split.
    + apply Qabs_Qle_condition. unfold tol, inject_Z. lra.
    + eapply Qle_trans; [exact Hj|]. unfold tol. lra.
  - destruct (interpolateHue_wrap start t d1 Hs Ht ltac:(lra))
      as (_ & [j Hj] & _).
    exists d1, 1%Z, j. split; [lra|]. split.
    + apply Qabs_Qle_condition. unfold tol, inject_Z. lra.
    + eapply Qle_trans; [exact Hj|]. unfold tol. lra.
  - destruct (interpolateHue_wrap start t d0 Hs Ht ltac:(lra))
      as (_ & [j Hj] & _).
    exists d0, 0%Z, j. split; [lra|]. split.
    + apply Qabs_Qle_condition. unfold tol, inject_Z. lra.
    + eapply Qle_trans; [exact Hj|]. unfold tol. lra.
  - apply (interpolateHue_wrap start t d1); trivial; lra.
  - apply (interpolateHue_wrap start t d1); trivial; lra.
  - apply (interpolateHue_wrap start t d0); trivial; lra.
Qed.

End Faithful.

(** From hue 350 halfway toward hue 30, under grid rounding. *)
Lemma interpolateHue_contract_350 :
  let hue := interpolateHue toGrid 350 30 (1 # 2) in
  0 <= hue < 360
  /\ nearShortArc 350 30 (1 # 2) hue
  /\ ((1 # 2) == 0 -> toGrid 350 == 350 -> hue == 350)
  /\ (350 == 350 -> 30 == 30 -> (1 # 2) == 1 # 2 -> hue == 10).
Proof.
  apply (interpolateHue_contract toGrid toGrid_faithful 350 30 (1 # 2)); lra.
Defined.

End ColorOpsRoundedFacts.

(** ** Contrast *)

Module ContrastFacts.
Import Tinycolor TinycolorFacts ColorOps Contrast.
Local Open Scope R_scope.

Lemma linearChannel_range (v : Z) :
  (0 <= v <= 255)%Z -> 0 <= linearChannel v <= 1.
Proof.
  intros [Hl Hu]. apply IZR_le in Hl, Hu. unfold linearChannel.
  set (s := IZR v / 255).
  assert (Hs : 0 <= s <= 1) by (unfold s; lra).
  destruct (Rle_dec s 0.03928) as [Hlow|Hhigh]; [lra|].
  assert (Hb : 0 < (s + 0.055) / 1.055 <= 1) by lra.
  split.
  - left. unfold Rpower. apply exp_pos.
  - destruct Hb as [Hb0 [Hb1|Hb1]].
    + left. rewrite <- (Rpower_O ((s + 0.055) / 1.055)) by assumption.
      unfold Rpower. apply exp_increasing.
      assert (ln ((s + 0.055) / 1.055) < 0)
        by (rewrite <- ln_1; now apply ln_increasing).
      nra.
    + right. rewrite Hb1. unfold Rpower. rewrite ln_1, Rmult_0_r. apply exp_0.
Qed.

Lemma getLuminance_range (color : colorInput) : 0 <= getLuminance color <= 1.
Proof.
  unfold getLuminance.
  destruct (inGamut_rounds _ (tinycolor_inGamut color)) as (Hr & Hg & Hb).
  cbn [toRgb rgb_r rgb_g rgb_b].
  pose proof (linearChannel_range _ Hr). pose proof (linearChannel_range _ Hg).
  pose proof (linearChannel_range _ Hb). lra.
Qed.

Lemma linearChannel_0 : linearChannel 0 = 0.
Proof.
  unfold linearChannel. destruct (Rle_dec (0 / 255) 0.03928); lra.
Qed.

Lemma linearChannel_255 : linearChannel 255 = 1.
Proof.
  unfold linearChannel. destruct (Rle_dec (255 / 255) 0.03928); [lra|].
  replace ((255 / 255 + 0.055) / 1.055) with 1 by lra.
  unfold Rpower. rewrite ln_1, Rmult_0_r. apply exp_0.
Qed.

(** X15.  The contrast ratio is symmetric in its two colours and lies
    between 1 and 21; it is 1 for a colour against itself and 21 for black
    against white; an invalid colour counts as black; and a pair that meets
    the AAA threshold meets the AA threshold. *)
Theorem getContrastRatio_contract (color1 color2 : colorInput) :
  getContrastRatio color1 color2 = getContrastRatio color2 color1
  /\ 1 <= getContrastRatio color1 color2 <= 21
  /\ getContrastRatio color1 color1 = 1
  /\ getContrastRatio black white = 21
  /\ getContrastRatio NoColor color2 = getContrastRatio black color2
  /\ (meetsWCAGAAA color1 color2 -> meetsWCAGAA color1 color2).
Proof.
  assert (Hblack : getLuminance black = 0).
  { unfold getLuminance.
    replace (toRgb (tinycolor black)) with (mkRgba 0 0 0 1)
      by (vm_compute; reflexivity).
    cbn [rgb_r rgb_g rgb_b]. rewrite linearChannel_0. lra. }
  assert (Hnone : getLuminance NoColor = 0).
  { unfold getLuminance.
    replace (toRgb (tinycolor NoColor)) with (mkRgba 0 0 0 1)
      by (vm_compute; reflexivity).
    cbn [rgb_r rgb_g rgb_b]. rewrite linearChannel_0. lra. }
  assert (Hwhite : getLuminance white = 1).
  { unfold getLuminance.
    replace (toRgb (tinycolor white)) with (mkRgba 255 255 255 1)
      by (vm_compute; reflexivity).
    cbn [rgb_r rgb_g rgb_b]. rewrite linearChannel_255. lra. }
  pose proof (getLuminance_range color1) as H1.
  pose proof (getLuminance_range color2) as H2.
  unfold meetsWCAGAAA, meetsWCAGAA, getContrastRatio.
  rewrite Hblack, Hnone, Hwhite.
  set (l1 := getLuminance color1) in *. set (l2 := getLuminance color2) in *.
  split; [now rewrite Rmax_comm, Rmin_comm|].
  split; [|split; [|split; [|split]]].
  - assert (Hd : 0 < Rmin l1 l2 + 0.05)
      by (unfold Rmin; destruct (Rle_dec l1 l2); lra).
    assert (Hlt : Rmin l1 l2 <= Rmax l1 l2 <= 1)
      by (unfold Rmin, Rmax; destruct (Rle_dec l1 l2); lra).
    assert (Hm : 0 <= Rmin l1 l2)
      by (unfold Rmin; destruct (Rle_dec l1 l2); lra).
    split.
    + apply Rmult_le_reg_r with (Rmin l1 l2 + 0.05); [assumption|].
      unfold Rdiv. rewrite Rmult_assoc, Rinv_l by lra. lra.
    + apply Rmult_le_reg_r with (Rmin l1 l2 + 0.05); [assumption|].
      unfold Rdiv. rewrite Rmult_assoc, Rinv_l by lra. lra.
  - unfold Rmax, Rmin. destruct (Rle_dec l1 l1); field; lra.
  - unfold Rmax, Rmin. destruct (Rle_dec 0 1); lra.
  - reflexivity.
  - lra.
Qed.

End ContrastFacts.

(** ** The reactive mapper *)

Module ReactiveFacts.
Import Tinycolor TinycolorFacts Reactive.
Local Open Scope Q_scope.

Lemma themeColors_keys (baseColor : color) (beat : bool) :
  map fst (themeColors baseColor beat) = paletteKeys.
Proof. reflexivity. Qed.

(** Every colour text of the palette is well formed, whatever the colour of
    the frame is. *)
Lemma themeColors_well_formed (baseColor : color) (beat : bool) :
  Forall (fun kv => isHexColor (snd kv) = true) (themeColors baseColor beat).
Proof.
  assert (Hhex : forall c, inGamut c -> isHexColor (toHexString c) = true)
    by (intros c Hc; now apply toHexString_isHexColor).
  assert (Hsuf : forall c, inGamut c ->
            isHexColor (toHexString c ++ "33") = true)
    by (intros c Hc; now apply toHexString_isHexColor).
  unfold themeColors.
  repeat (apply Forall_cons || apply Forall_nil); cbn [snd];
    try (destruct beat; [|]);
    lazymatch goal with
    | |- isHexColor (toHexString _ ++ _) = true => apply Hsuf
    | |- isHexColor (toHexString _) = true => apply Hhex
    | |- _ => exact eq_refl
    end;
    repeat lazymatch goal with
    | |- inGamut (setAlpha _ _) => apply setAlpha_inGamut
    | |- inGamut (spin _ _) => apply spin_inGamut
    | |- inGamut (lighten _ _) => apply lighten_inGamut
    | |- inGamut (darken _ _) => apply darken_inGamut
    | |- inGamut (saturate _ _) => apply saturate_inGamut
    | |- inGamut (clone _) => apply clone_inGamut
    end.
Qed.

(** The mapper clamps nothing.  A sample with energy 10 drives the smoothed
    saturation to 227, outside [0, 100], and neither the state nor the
    palette is the one the sample clamped into range gives. *)
Lemma processAudioData_does_not_clamp :
  lastSaturation (fst (processAudioData activeController [] loudSample))
    == 227
  /\ ~ lastSaturation
        (fst (processAudioData activeController [] (clampFeatures loudSample)))
      == 227
  /\ snd (processAudioData activeController [] loudSample)
     <> snd (processAudioData activeController [] (clampFeatures loudSample)).
Proof.
  split; [vm_compute; reflexivity|]. split.
  - vm_compute. discriminate.
  - intros H. vm_compute in H. discriminate H.
Qed.



(** X2.  The smoothing state after a sample is the same whether the sample
    carries a beat or not: the controllers after the two calls are equal.
    The beat boost is computed into a local of the call and is not written
    back to lastBrightness. *)
Theorem beat_leaves_smoothing_state (this : ReactiveThemeController)
    (config : ColorMap) (data : AudioAnalysisData) :
  fst (processAudioData this config (withBeat data true))
  = fst (processAudioData this config (withBeat data false)).
Proof.
  unfold processAudioData. destruct (isActive this); cbn [negb fst];
    reflexivity.
Qed.

Lemma processAudioData_keeps (this : ReactiveThemeController)
    (config : ColorMap) (data : AudioAnalysisData) :
  let this' := fst (processAudioData this config data) in
  baseColors this' = baseColors this /\ isActive this' = isActive this
  /\ smoothingFactor this' = smoothingFactor this.
Proof.
  unfold processAudioData. destruct (isActive this) eqn:E; cbn [negb fst].
  - repeat split.
  - rewrite E. repeat split.
Qed.

Lemma activate_active (this : ReactiveThemeController) (config : ColorMap) :
  isActive this = true -> activate this config = (this, config).
Proof. intros H. unfold activate. now rewrite H. Qed.

Lemma processAudioData_inactive (this : ReactiveThemeController)
    (config : ColorMap) (data : AudioAnalysisData) :
  isActive this = false -> processAudioData this config data = (this, config).
Proof. intros H. unfold processAudioData. now rewrite H. Qed.

(** While the controller is active its calls keep it active and keep the
    captured baseline. *)
Lemma run_active (calls : list call) (this : ReactiveThemeController)
    (config : ColorMap) :
  isActive this = true ->
  isActive (fst (run this config calls)) = true
  /\ baseColors (fst (run this config calls)) = baseColors this.
Proof.
  revert this config. induction calls as [|c calls IH]; intros this config Hact.
  - now split.
  - destruct c as [data|]; cbn [run].
    + pose proof (processAudioData_keeps this config data) as (Hb & Ha & _).
      destruct (processAudioData this config data) as [this' config'].
      cbn [fst] in Hb, Ha. rewrite <- Hb. apply IH. congruence.
    + rewrite activate_active by assumption. now apply IH.
Qed.

(** X3.  A session restores the baseline: after [activate] on an idle
    controller, any sequence of [processAudioData] and further [activate]
    calls, and [deactivate], the customizations are again the ones that were
    in force when the session began, and the controller is idle.  A repeated
    [activate] does not capture the reactive palette as a new baseline. *)
Theorem deactivate_restores_baseline (this : ReactiveThemeController)
    (config : ColorMap) (calls : list call) :
  isActive this = false ->
  let started := activate this config in
  let ran := run (fst started) (snd started) calls in
  deactivate (fst ran) (snd ran)
  = ({| baseColors := config; isActive := false;
        smoothingFactor := smoothingFactor (fst ran);
        lastHue := lastHue (fst ran);
        lastSaturation := lastSaturation (fst ran);
        lastBrightness := lastBrightness (fst ran) |}, config).
Proof.
  intros Hidle. unfold activate. rewrite Hidle. cbn [fst snd].
  match goal with |- context [run ?t ?c calls] =>
    destruct (run_active calls t c eq_refl) as [Ha Hb];
    destruct (run t c calls) as [t2 c2] end.
  cbn [fst snd baseColors] in *. unfold deactivate. rewrite Ha. cbn [negb].
  now rewrite Hb.
Qed.

Lemma deactivate_restores_baseline_example :
  let started := activate newController [("editor.background", "#1e1e1e")]%string in
  let ran := run (fst started) (snd started)
               [Process loudSample; Activate; Process loudSample] in
  deactivate (fst ran) (snd ran)
  = ({| baseColors := [("editor.background", "#1e1e1e")]%string;
        isActive := false;
        smoothingFactor := smoothingFactor (fst ran);
        lastHue := lastHue (fst ran);
        lastSaturation := lastSaturation (fst ran);
        lastBrightness := lastBrightness (fst ran) |},
     [("editor.background", "#1e1e1e")]%string).
Proof.
  apply (deactivate_restores_baseline newController
           [("editor.background", "#1e1e1e")]%string
           [Process loudSample; Activate; Process loudSample]).
  reflexivity.
Defined.

(** X5.  Samples in range keep the state in range: when the three features
    of a sample lie in [0, 1] and the smoothing factor in [0, 1], a state
    with hue in [0, 360], saturation in [40, 100] and lightness in [30, 70]
    (the state of a new controller is one) stays so. *)
Theorem processAudioData_state_in_range (this : ReactiveThemeController)
    (config : ColorMap) (data : AudioAnalysisData) :
  0 <= smoothingFactor this <= 1 -> inRange data -> stateInRange this ->
  stateInRange (fst (processAudioData this config data)).
Proof.
  intros Hf (He & Hc & Hd) (Hh & Hs & Hl).
  unfold processAudioData. destruct (isActive this); cbn [negb fst];
    [|now repeat split].
  assert (Hfl : 0 <= inject_Z (Qfloor (dominantFreq data * 360)) <= 360).
  { split.
    - change 0 with (inject_Z 0). rewrite <- Zle_Qle.
      rewrite <- (Qfloor_Z 0). apply Qfloor_resp_le. change (inject_Z 0) with 0.
      lra.
    - eapply Qle_trans; [apply Qfloor_le|]. lra. }
  unfold stateInRange, smooth.
  cbn [lastHue lastSaturation lastBrightness].
  repeat split; nra.
Qed.

Lemma processAudioData_state_in_range_example :
  stateInRange
    (fst (processAudioData activeController []
            {| energy := 1 # 4; isBeat := true; brightness := 0;
               spectralCentroid := 1 # 2; dominantFreq := 9 # 10;
               timestamp := 0 |})).
Proof.
  apply processAudioData_state_in_range.
  - cbn. lra.
  - unfold inRange. cbn. lra.
  - unfold stateInRange. cbn. lra.
Defined.

End ReactiveFacts.

(** ** The theme history *)

Module ThemeHistoryFacts.
Import ThemeHistory.
Local Open Scope Z_scope.

Lemma kept_length (this : ThemeHistoryManager) :
  -1 <= currentIndex this < Z.of_nat (length (history this)) ->
  Z.of_nat
    (length (if currentIndex this <? Z.of_nat (length (history this)) - 1
             then slice0 (history this) (currentIndex this + 1)
             else history this))
  = currentIndex this + 1.
Proof.
  intros H.
  destruct (Z.ltb_spec (currentIndex this)
              (Z.of_nat (length (history this)) - 1)) as [Hlt|Hge].
  - unfold slice0.
    destruct (Z.ltb_spec (currentIndex this + 1) 0); [lia|].
    rewrite length_firstn. lia.
  - lia.
Qed.

(** After [addSnapshot] the manager is well formed, the added snapshot is
    the current one and nothing can be redone. *)
Lemma addSnapshot_shape (this : ThemeHistoryManager) (now : Z)
    (colors : ColorMap) (description : option string) :
  -1 <= currentIndex this < Z.of_nat (length (history this)) ->
  1 <= maxHistorySize this ->
  Z.of_nat (length (history this)) <= maxHistorySize this ->
  let this' := addSnapshot this now colors description in
  wellFormed this'
  /\ at_ this' (currentIndex this') = Some (mkSnapshot now colors description)
  /\ canRedo this' = false
  /\ maxHistorySize this' = maxHistorySize this.
Proof.
  intros Hidx Hmax Hlen. pose proof (kept_length this Hidx) as Hk.
  unfold addSnapshot.
  set (kept := if currentIndex this <? Z.of_nat (length (history this)) - 1
               then slice0 (history this) (currentIndex this + 1)
               else history this) in *.
  assert (Hp : Z.of_nat (length (kept ++ [mkSnapshot now colors description]))
               = currentIndex this + 2)
    by (rewrite length_app; cbn [length]; lia).
  destruct (Z.ltb_spec (maxHistorySize this)
              (Z.of_nat (length (kept ++ [mkSnapshot now colors description]))))
    as [Hover|Hfit]; cbv zeta.
  - destruct kept as [|x kept']; [cbn [length] in Hk; lia|].
    cbn [app tl]. cbn [length] in Hk.
    assert (Hl : Z.of_nat (length (kept' ++ [mkSnapshot now colors description]))
                 = currentIndex this + 1)
      by (rewrite length_app; cbn [length]; lia).
    unfold wellFormed, at_, canRedo.
    cbn [history currentIndex maxHistorySize]. rewrite Hl.
    repeat split; try lia; try (apply Z.ltb_ge; lia).
    destruct (Z.ltb_spec (currentIndex this + 1 - 1) 0); [lia|].
    replace (Z.to_nat (currentIndex this + 1 - 1)) with (length kept' + 0)%nat
      by lia.
    now rewrite nth_error_app2, Nat.add_comm, Nat.add_sub by lia.
  - unfold wellFormed, at_, canRedo.
    cbn [history currentIndex maxHistorySize]. rewrite Hp.
    repeat split; try lia; try (apply Z.ltb_ge; lia).
    destruct (Z.ltb_spec (currentIndex this + 1) 0); [lia|].
    replace (Z.to_nat (currentIndex this + 1)) with (length kept + 0)%nat
      by lia.
    now rewrite nth_error_app2, Nat.add_comm, Nat.add_sub by lia.
Qed.

Lemma at_in_range (this : ThemeHistoryManager) (index : Z) :
  0 <= index < Z.of_nat (length (history this)) ->
  exists snapshot, at_ this index = Some snapshot.
Proof.
  intros H. unfold at_. destruct (Z.ltb_spec index 0); [lia|].
  destruct (nth_error (history this) (Z.to_nat index)) as [snapshot|] eqn:E.
  - now exists snapshot.
  - apply nth_error_None in E. lia.
Qed.

Lemma moveTo_in_range (this : ThemeHistoryManager) (config : ColorMap)
    (index : Z) :
  wellFormed this -> 0 <= index < Z.of_nat (length (history this)) ->
  exists snapshot,
    at_ this index = Some snapshot
    /\ moveTo this config index
       = (Returned true,
          mkManager (history this) index (maxHistorySize this),
          colors snapshot)
    /\ wellFormed (mkManager (history this) index (maxHistorySize this)).
Proof.
  intros [_ Hmax] Hidx. destruct (at_in_range this index Hidx) as [snap Hs].
  exists snap. unfold moveTo. rewrite Hs. repeat split; cbn; lia.
Qed.

Lemma step_wellFormed (this : ThemeHistoryManager) (config : ColorMap)
    (c : call) :
  wellFormed this ->
  let '(o, this', _) := step this config c in
  wellFormed this' /\ o <> Threw
  /\ maxHistorySize this' = maxHistorySize this.
Proof.
  intros Hwf. pose proof Hwf as [Hidx Hmax].
  assert (Hsame : wellFormed this /\ Returned false <> Threw
                  /\ maxHistorySize this = maxHistorySize this)
    by (split; [assumption | split; [discriminate | reflexivity]]).
  destruct c as [now colors description| | |index|now]; cbn [step].
  - destruct (addSnapshot_shape this now colors description) as (H1 & _ & _ & H4);
      try lia.
    split; [exact H1 | split; [discriminate | exact H4]].
  - unfold undo, canUndo. destruct (Z.ltb_spec 0 (currentIndex this));
      cbn [negb]; [|exact Hsame].
    destruct (moveTo_in_range this config (currentIndex this - 1) Hwf)
      as (snap & _ & -> & Hw); [lia|].
    split; [exact Hw | split; [discriminate | reflexivity]].
  - unfold redo, canRedo.
    destruct (Z.ltb_spec (currentIndex this)
                (Z.of_nat (length (history this)) - 1));
      cbn [negb]; [|exact Hsame].
    destruct (moveTo_in_range this config (currentIndex this + 1) Hwf)
      as (snap & _ & -> & Hw); [lia|].
    split; [exact Hw | split; [discriminate | reflexivity]].
  - unfold jumpTo.
    destruct (Z.ltb_spec index 0); cbn [orb]; [exact Hsame|].
    destruct (Z.leb_spec (Z.of_nat (length (history this))) index);
      [exact Hsame|].
    destruct (moveTo_in_range this config index Hwf)
      as (snap & _ & -> & Hw); [lia|].
    split; [exact Hw | split; [discriminate | reflexivity]].
  - unfold clear.
    destruct (addSnapshot_shape
                (mkManager [] (-1) (maxHistorySize this)) now config
                (Some "Initial state"%string)) as (H1 & _ & _ & H4);
      cbn [history currentIndex maxHistorySize length]; try lia.
    split; [exact H1 | split; [discriminate | exact H4]].
Qed.

(** X21.  The history invariant: a manager built with a size limit of at
    least 1 is well formed (its index points at a snapshot and the history
    respects the limit), and after any sequence of [addSnapshot], [undo],
    [redo], [jumpTo] and [clear] calls it still is; none of the calls reads
    a missing snapshot, and the limit is unchanged. *)
Theorem history_invariant (maxSize now : Z) (initial config : ColorMap)
    (calls : list call) :
  1 <= maxSize ->
  let '(outcomes, this, _) := run (newManager maxSize now initial) config calls in
  wellFormed this /\ ~ In Threw outcomes /\ maxHistorySize this = maxSize.
Proof.
  intros Hmax.
  assert (Hnew : wellFormed (newManager maxSize now initial)
                 /\ maxHistorySize (newManager maxSize now initial) = maxSize).
  { unfold newManager.
    destruct (addSnapshot_shape (mkManager [] (-1) maxSize) now initial
                (Some "Initial state"%string)) as (H1 & _ & _ & H4);
      cbn [history currentIndex maxHistorySize length]; try lia.
    split; assumption. }
  destruct Hnew as [Hwf Hm].
  revert Hwf Hm. generalize (newManager maxSize now initial) as this.
  revert config. induction calls as [|c rest IH]; intros config this Hwf Hm.
  - cbn [run]. split; [exact Hwf | split; [intros []| exact Hm]].
  - cbn [run]. pose proof (step_wellFormed this config c Hwf) as Hs.
    destruct (step this config c) as [[o this'] config'].
    destruct Hs as (Hwf' & Ho & Hm').
    specialize (IH config' this' Hwf' ltac:(congruence)).
    destruct (run this' config' rest) as [[os this''] config''].
    destruct IH as (H1 & H2 & H3).
    split; [exact H1 | split; [|exact H3]].
    intros [Hin|Hin]; [now apply Ho | now apply H2].
Qed.

Lemma history_invariant_example :
  let '(outcomes, this, _) :=
    run (newManager 2 0 []) []
        [AddSnapshot 1 [("editor.background", "#000000")]%string None;
         Undo; Undo; Redo; JumpTo 5; AddSnapshot 2 [] None; Clear 3] in
  wellFormed this /\ ~ In Threw outcomes /\ maxHistorySize this = 2.
Proof.
  apply (history_invariant 2 0 [] []
           [AddSnapshot 1 [("editor.background", "#000000")]%string None;
            Undo; Undo; Redo; JumpTo 5; AddSnapshot 2 [] None; Clear 3]).
  lia.
Defined.

(** X22.  Adding a snapshot: on a well-formed manager [addSnapshot] makes
    the added snapshot the current one and discards whatever could be
    redone; the result is well formed, so its history never exceeds the
    size limit. *)
Theorem addSnapshot_current (this : ThemeHistoryManager) (now : Z)
    (colors : ColorMap) (description : option string) :
  wellFormed this ->
  let this' := addSnapshot this now colors description in
  at_ this' (currentIndex this') = Some (mkSnapshot now colors description)
  /\ canRedo this' = false
  /\ wellFormed this'
  /\ Z.of_nat (length (history this')) <= maxHistorySize this.
Proof.
  intros [Hidx Hmax].
  destruct (addSnapshot_shape this now colors description)
    as (H1 & H2 & H3 & H4); try lia.
  cbv zeta. split; [exact H2 | split; [exact H3 | split; [exact H1|]]].
  rewrite <- H4. apply H1.
Qed.

Lemma addSnapshot_current_example :
  let this' := addSnapshot (newManager 50 0 []) 1
                 [("editor.background", "#000000")]%string None in
  at_ this' (currentIndex this')
    = Some (mkSnapshot 1 [("editor.background", "#000000")]%string None)
  /\ canRedo this' = false
  /\ wellFormed this'
  /\ Z.of_nat (length (history this')) <= maxHistorySize (newManager 50 0 []).
Proof.
  apply (addSnapshot_current (newManager 50 0 []) 1
           [("editor.background", "#000000")]%string None).
  unfold wellFormed. cbn. lia.
Defined.

(** X23.  Undo and redo: on a well-formed manager with something to undo,
    [undo] returns true and applies the colours of the previous snapshot;
    [redo] right after it returns true, applies the colours of the snapshot
    that was current and gives back the manager as it was.  With nothing to
    undo, [undo] returns false and changes neither the manager nor the
    customizations. *)
Theorem undo_redo (this : ThemeHistoryManager) (config : ColorMap) :
  wellFormed this ->
  (canUndo this = false -> undo this config = (Returned false, this, config))
  /\ (canUndo this = true ->
      exists previous current this1,
        at_ this (currentIndex this - 1) = Some previous
        /\ at_ this (currentIndex this) = Some current
        /\ undo this config = (Returned true, this1, colors previous)
        /\ redo this1 (colors previous) = (Returned true, this, colors current)).
Proof.
  intros Hwf. pose proof Hwf as [Hidx Hmax]. split.
  - intros H. unfold undo. now rewrite H.
  - intros H. unfold canUndo in H. apply Z.ltb_lt in H.
    destruct (moveTo_in_range this config (currentIndex this - 1) Hwf)
      as (previous & Hp & Hmove & Hw1); [lia|].
    destruct (at_in_range this (currentIndex this)) as [current Hc]; [lia|].
    exists previous, current,
      (mkManager (history this) (currentIndex this - 1) (maxHistorySize this)).
    split; [assumption|]. split; [assumption|]. split.
    + unfold undo, canUndo. apply Z.ltb_lt in H. rewrite H. exact Hmove.
    + unfold redo, canRedo, moveTo, at_.
      cbn [history currentIndex maxHistorySize].
      replace (currentIndex this - 1 + 1) with (currentIndex this) by lia.
      assert (E : (currentIndex this - 1 <? Z.of_nat (length (history this)) - 1)
                  = true) by (apply Z.ltb_lt; lia).
      rewrite E. cbn [negb]. unfold at_ in Hc. rewrite Hc.
      destruct this; reflexivity.
Qed.

Lemma undo_redo_example :
  (canUndo (addSnapshot (newManager 50 0 []) 1 [] None) = false ->
   undo (addSnapshot (newManager 50 0 []) 1 [] None) []
   = (Returned false, addSnapshot (newManager 50 0 []) 1 [] None, []))
  /\ (canUndo (addSnapshot (newManager 50 0 []) 1 [] None) = true ->
      exists previous current this1,
        at_ (addSnapshot (newManager 50 0 []) 1 [] None)
            (currentIndex (addSnapshot (newManager 50 0 []) 1 [] None) - 1)
        = Some previous
        /\ at_ (addSnapshot (newManager 50 0 []) 1 [] None)
               (currentIndex (addSnapshot (newManager 50 0 []) 1 [] None))
           = Some current
        /\ undo (addSnapshot (newManager 50 0 []) 1 [] None) []
           = (Returned true, this1, colors previous)
        /\ redo this1 (colors previous)
           = (Returned true, addSnapshot (newManager 50 0 []) 1 [] None,
              colors current)).
Proof.
  apply (undo_redo (addSnapshot (newManager 50 0 []) 1 [] None) []).
  unfold wellFormed. cbn. lia.
Defined.

End ThemeHistoryFacts.

(** ** The filterbank construction *)

Module MelFacts.
Import Mel.
Local Open Scope R_scope.

Lemma floor_mono (x y : R) : x <= y -> (floor x <= floor y)%Z.
Proof.
  intros Hxy. unfold floor.
  destruct (base_Int_part x) as [Hx _].
  destruct (base_Int_part y) as [_ Hy].
  apply Z.lt_succ_r, lt_IZR. rewrite succ_IZR. lra.
Qed.

Lemma ln10_pos : 0 < ln 10.
Proof. rewrite <- ln_1. apply ln_increasing; lra. Qed.

Lemma pow10_mono (x y : R) : x <= y -> pow10 x <= pow10 y.
Proof.
  intros Hxy. unfold pow10. apply Rle_Rpower; lra.
Qed.

Lemma melToHz_mono (x y : R) : x <= y -> melToHz x <= melToHz y.
Proof.
  intros Hxy. unfold melToHz.
  assert (pow10 (x / 2595) <= pow10 (y / 2595)) by (apply pow10_mono; lra).
  lra.
Qed.

Lemma hzToMel_0 : hzToMel 0 = 0.
Proof.
  unfold hzToMel, log10.
  replace (1 + 0 / 700) with 1 by lra. rewrite ln_1. lra.
Qed.

Lemma createMelFilterbank_length (numFilters fftSize : Z) (sampleRate : R) :
  length (createMelFilterbank numFilters fftSize sampleRate)
  = Z.to_nat numFilters.
Proof.
  unfold createMelFilterbank. now rewrite length_map, length_seq.
Qed.

Lemma melToHz_hzToMel (hz : R) : 0 <= hz -> melToHz (hzToMel hz) = hz.
Proof.
  intros Hhz. unfold melToHz, hzToMel, log10, pow10, Rpower.
  pose proof ln10_pos as H10.
  replace (2595 * (ln (1 + hz / 700) / ln 10) / 2595 * ln 10)
    with (ln (1 + hz / 700)) by (field; lra).
  rewrite exp_ln by lra. field.
Qed.

Lemma melToHz_0 : melToHz 0 = 0.
Proof. rewrite <- hzToMel_0 at 1. apply melToHz_hzToMel. lra. Qed.

(** C5, as the specification states it, fails: the construction validates
    nothing.  With FFT size 1 (below 2) it still returns a filter, and so it
    does with a sample rate that is not positive. *)
Lemma createMelFilterbank_invalid_config_not_empty :
  ((1 < 2)%Z /\ createMelFilterbank 1 1 44100 <> []) /\
  (-44100 <= 0 /\ createMelFilterbank 128 2048 (-44100) <> []).
Proof.
  split; (split; [lia || lra|]); intros H;
    apply (f_equal (@length _)) in H;
    rewrite createMelFilterbank_length in H; discriminate H.
Qed.

(** C5, amended.  The construction returns one filter per index below
    [numFilters] whatever the FFT size and the sample rate are; the result is
    empty exactly when [numFilters < 1]. *)
Theorem createMelFilterbank_empty_iff (numFilters fftSize : Z) (sampleRate : R) :
  length (createMelFilterbank numFilters fftSize sampleRate)
    = Z.to_nat numFilters /\
  (createMelFilterbank numFilters fftSize sampleRate = []
   <-> (numFilters < 1)%Z).
Proof.
  split; [apply createMelFilterbank_length|].
  rewrite <- length_zero_iff_nil, createMelFilterbank_length. lia.
Qed.

Lemma melToHz_lt (x y : R) : x < y -> melToHz x < melToHz y.
Proof.
  intros Hxy. unfold melToHz, pow10.
  assert (Rpower 10 (x / 2595) < Rpower 10 (y / 2595))
    by (apply Rpower_lt; lra).
  lra.
Qed.

Lemma hzToMel_pos (hz : R) : 0 < hz -> 0 < hzToMel hz.
Proof.
  intros Hhz. unfold hzToMel, log10.
  assert (0 < ln (1 + hz / 700)) by (rewrite <- ln_1; apply ln_increasing; lra).
  pose proof ln10_pos.
  apply Rmult_lt_0_compat; [lra|].
  apply Rmult_lt_0_compat; [assumption|].
  now apply Rinv_0_lt_compat.
Qed.

(** A valid configuration can produce a degenerate filter, one whose three
    bins coincide: with two filters over an FFT of size 2 every band edge
    below the Nyquist frequency falls in bin 0. *)
Lemma createMelFilterbank_degenerate_filter :
  nth_error (createMelFilterbank 2 2 44100) 0 = Some (mkFilter 0 0 0).
Proof.
  unfold createMelFilterbank. change (Z.to_nat 2) with 2%nat.
  cbn [seq map nth_error]. f_equal.
  rewrite hzToMel_0. unfold melFilterAt. cbn [INR].
  change (IZR (2 + 1)) with 3.
  set (m := hzToMel (44100 / 2)).
  assert (Hm : 0 < m) by (apply hzToMel_pos; lra).
  assert (Hin : forall x, 0 <= x -> x < m ->
            floor (melToHz x / (44100 / IZR 2)) = 0%Z).
  { intros x Hx0 Hx1. unfold floor. symmetry. apply Int_part_spec.
    assert (H0 : 0 <= melToHz x)
      by (rewrite <- melToHz_0; now apply melToHz_mono).
    assert (H1 : melToHz x < 44100 / 2).
    { rewrite <- (melToHz_hzToMel (44100 / 2)) by lra.
      apply melToHz_lt. fold m. lra. }
    assert (H2 : melToHz x / (44100 / IZR 2) = melToHz x / 22050)
      by (field; lra).
    rewrite H2. split.
    - assert (melToHz x / 22050 < 1); [|lra].
      apply Rmult_lt_reg_r with 22050; [lra|].
      unfold Rdiv. rewrite Rmult_assoc, Rinv_l by lra. lra.
    - apply Rmult_le_pos; [assumption|].
      left. apply Rinv_0_lt_compat. lra. }
  f_equal; apply Hin; lra.
Qed.

End MelFacts.

(** ** The filterbank construction, rounding included *)

Module MelRoundedFacts.
Import Mel MelFacts MelRounded.
Local Open Scope R_scope.

(** Without rounding, and with the exact logarithm and power, the
    construction is the one over the real numbers. *)
Lemma createMelFilterbank_exact (numFilters fftSize : Z) (sampleRate : R) :
  createMelFilterbank (fun x => x) log10 Rpower numFilters fftSize sampleRate
  = Mel.createMelFilterbank numFilters fftSize sampleRate.
Proof. reflexivity. Qed.

Section Engine.
Variable rnd : R -> R.
Variable log10 : R -> R.
Variable pow : R -> R -> R.
Hypothesis He : monotone rnd log10 pow.

#[local] Abbreviation hzToMel := (hzToMel rnd log10).
#[local] Abbreviation melToHz := (melToHz rnd pow).
#[local] Abbreviation melFilterAt := (melFilterAt rnd pow).
#[local] Abbreviation createMelFilterbank :=
  (createMelFilterbank rnd log10 pow).

Lemma rnd_nonneg (x : R) : 0 <= x -> 0 <= rnd x.
Proof.
  intros H. rewrite <- (rnd_0 _ _ _ He). now apply (rnd_mono _ _ _ He).
Qed.

Lemma rounded_hzToMel_0 : hzToMel 0 = 0.
Proof.
  unfold MelRounded.hzToMel.
  replace (0 / 700) with 0 by lra. rewrite (rnd_0 _ _ _ He).
  replace (1 + 0) with 1 by lra.
  rewrite (rnd_1 _ _ _ He), (log10_1 _ _ _ He).
  replace (2595 * 0) with 0 by lra. apply (rnd_0 _ _ _ He).
Qed.

Lemma rounded_melToHz_0 : melToHz 0 = 0.
Proof.
  unfold MelRounded.melToHz.
  replace (0 / 2595) with 0 by lra.
  rewrite (rnd_0 _ _ _ He), (pow_0 _ _ _ He).
  replace (1 - 1) with 0 by lra. rewrite (rnd_0 _ _ _ He).
  replace (700 * 0) with 0 by lra. apply (rnd_0 _ _ _ He).
Qed.

Lemma rounded_hzToMel_mono (x y : R) : 0 <= x -> x <= y -> hzToMel x <= hzToMel y.
Proof.
  intros Hx Hxy. unfold MelRounded.hzToMel.
  pose proof (rnd_mono _ _ _ He) as Hm.
  assert (H1 : rnd (x / 700) <= rnd (y / 700)) by (apply Hm; lra).
  assert (H0 : 0 <= rnd (x / 700)) by (apply rnd_nonneg; lra).
  assert (H2 : rnd (1 + rnd (x / 700)) <= rnd (1 + rnd (y / 700)))
    by (apply Hm; lra).
  assert (H3 : 1 <= rnd (1 + rnd (x / 700))).
  { rewrite <- (rnd_1 _ _ _ He) at 1. apply Hm. lra. }
  apply Hm.
  assert (H4 : 0 < rnd (1 + rnd (x / 700))) by lra.
  pose proof (log10_mono _ _ _ He _ _ H4 H2). lra.
Qed.

Lemma rounded_melToHz_mono (x y : R) : x <= y -> melToHz x <= melToHz y.
Proof.
  intros Hxy. unfold MelRounded.melToHz.
  pose proof (rnd_mono _ _ _ He) as Hm.
  assert (H1 : rnd (x / 2595) <= rnd (y / 2595)) by (apply Hm; lra).
  pose proof (pow_mono _ _ _ He _ _ H1) as H2.
  apply Hm.
  assert (rnd (pow 10 (rnd (x / 2595)) - 1) <= rnd (pow 10 (rnd (y / 2595)) - 1))
    by (apply Hm; lra).
  lra.
Qed.

(** The mel step is not negative. *)
Lemma rounded_melStep_nonneg (numFilters : Z) (sampleRate : R) :
  (0 <= numFilters)%Z -> 0 <= sampleRate ->
  0 <= rnd (rnd (hzToMel (rnd (sampleRate / 2)) - hzToMel 0)
            / IZR (numFilters + 1)).
Proof.
  intros Hn Hsr.
  assert (H1 : hzToMel 0 <= hzToMel (rnd (sampleRate / 2))).
  { apply rounded_hzToMel_mono; [lra|]. apply rnd_nonneg. lra. }
  assert (H2 : 0 <= rnd (hzToMel (rnd (sampleRate / 2)) - hzToMel 0))
    by (apply rnd_nonneg; lra).
  assert (0 < IZR (numFilters + 1)) by (apply IZR_lt; lia).
  apply rnd_nonneg. apply Rmult_le_pos; [assumption|].
  left. now apply Rinv_0_lt_compat.
Qed.

(** The mel points grow with the index, and the bin with the mel point. *)
Lemma rounded_melPoint_mono (minMel melStep a b : R) :
  0 <= melStep -> a <= b ->
  rnd (minMel + rnd (a * melStep)) <= rnd (minMel + rnd (b * melStep)).
Proof.
  intros Hs Hab. pose proof (rnd_mono _ _ _ He) as Hm.
  apply Hm. assert (rnd (a * melStep) <= rnd (b * melStep))
    by (apply Hm; nra). lra.
Qed.

Lemma rounded_bin_mono (w a b : R) :
  0 < w -> a <= b ->
  (floor (rnd (melToHz a / w)) <= floor (rnd (melToHz b / w)))%Z.
Proof.
  intros Hw Hab. apply floor_mono, (rnd_mono _ _ _ He).
  apply Rmult_le_compat_r.
  - left. now apply Rinv_0_lt_compat.
  - now apply rounded_melToHz_mono.
Qed.

Lemma rounded_melFilterAt_ordered (minMel melStep : R) (fftSize : Z) (sampleRate : R)
    (i : nat) :
  0 < rnd (sampleRate / IZR fftSize) -> 0 <= melStep ->
  let f := melFilterAt minMel melStep fftSize sampleRate i in
  (leftBin f <= centerBin f <= rightBin f)%Z.
Proof.
  intros Hw Hstep. simpl.
  split; apply rounded_bin_mono; trivial; apply rounded_melPoint_mono; trivial; lra.
Qed.

Lemma rounded_melFilterAt_center_mono (minMel melStep : R) (fftSize : Z)
    (sampleRate : R) (i j : nat) :
  0 < rnd (sampleRate / IZR fftSize) -> 0 <= melStep -> (i <= j)%nat ->
  (centerBin (melFilterAt minMel melStep fftSize sampleRate i)
   <= centerBin (melFilterAt minMel melStep fftSize sampleRate j))%Z.
Proof.
  intros Hw Hstep Hij. simpl. apply rounded_bin_mono; trivial.
  apply rounded_melPoint_mono; trivial. apply le_INR in Hij. lra.
Qed.

Lemma rounded_createMelFilterbank_length (numFilters fftSize : Z) (sampleRate : R) :
  length (createMelFilterbank numFilters fftSize sampleRate)
  = Z.to_nat numFilters.
Proof.
  unfold MelRounded.createMelFilterbank. now rewrite length_map, length_seq.
Qed.

Lemma rounded_createMelFilterbank_nth (numFilters fftSize : Z) (sampleRate : R)
    (i : nat) :
  (i < Z.to_nat numFilters)%nat ->
  nth_error (createMelFilterbank numFilters fftSize sampleRate) i
  = Some (melFilterAt (hzToMel 0)
            (rnd (rnd (hzToMel (rnd (sampleRate / 2)) - hzToMel 0)
                  / IZR (numFilters + 1)))
            fftSize sampleRate i).
Proof.
  intros Hi. unfold MelRounded.createMelFilterbank.
  rewrite nth_error_map, (nth_error_nth' _ 0%nat) by (now rewrite length_seq).
  now rewrite seq_nth.
Qed.

Lemma rounded_createMelFilterbank_nth_inv (numFilters fftSize : Z) (sampleRate : R)
    (i : nat) (f : MelFilter) :
  nth_error (createMelFilterbank numFilters fftSize sampleRate) i = Some f ->
  (i < Z.to_nat numFilters)%nat
  /\ f = melFilterAt (hzToMel 0)
           (rnd (rnd (hzToMel (rnd (sampleRate / 2)) - hzToMel 0)
                 / IZR (numFilters + 1)))
           fftSize sampleRate i.
Proof.
  intros H.
  assert (Hi : (i < Z.to_nat numFilters)%nat).
  { rewrite <- (rounded_createMelFilterbank_length numFilters fftSize sampleRate).
    apply nth_error_Some. rewrite H. discriminate. }
  split; [exact Hi|]. rewrite rounded_createMelFilterbank_nth in H by exact Hi.
  now injection H.
Qed.


Lemma rounded_bin_0 (w : R) : floor (rnd (melToHz 0 / w)) = 0%Z.
Proof.
  rewrite rounded_melToHz_0. replace (0 / w) with 0 by (unfold Rdiv; ring).
  rewrite (rnd_0 _ _ _ He). unfold floor. symmetry. apply Int_part_spec.
  simpl. lra.
Qed.


End Engine.

Lemma toGrid_mono (x y : R) : x <= y -> toGrid x <= toGrid y.
Proof.
  intros Hxy. unfold toGrid.
  assert (HG : 0 < IZR (2 ^ 1074)) by (apply IZR_lt; reflexivity).
  set (G := IZR (2 ^ 1074)) in *.
  assert (Hfl : (floor (x * G + / 2) <= floor (y * G + / 2))%Z)
    by (apply floor_mono; nra).
  apply IZR_le in Hfl.
  apply Rmult_le_compat_r; [|assumption].
  left. now apply Rinv_0_lt_compat.
Qed.

Lemma toGrid_int (z : Z) : toGrid (IZR z) = IZR z.
Proof.
  unfold toGrid.
  assert (HG : 0 < IZR (2 ^ 1074)) by (apply IZR_lt; reflexivity).
  replace (floor (IZR z * IZR (2 ^ 1074) + / 2)) with (z * 2 ^ 1074)%Z.
  - rewrite mult_IZR. field. lra.
  - unfold floor. apply Int_part_spec. rewrite mult_IZR. lra.
Qed.

(** An engine that rounds the exact logarithm and the exact power to the
    grid is monotone. *)
Lemma gridEngine_monotone : monotone toGrid log10Grid powGrid.
Proof.
  constructor.
  - exact toGrid_mono.
  - apply (toGrid_int 0).
  - apply (toGrid_int 1).
  - intros x y Hx Hxy. unfold log10Grid. apply toGrid_mono.
    unfold log10. pose proof ln10_pos.
    apply Rmult_le_compat_r; [left; now apply Rinv_0_lt_compat|].
    destruct Hxy as [Hlt|Heq]; [|rewrite Heq; lra].
    left. now apply ln_increasing.
  - unfold log10Grid, log10. rewrite ln_1.
    replace (0 / ln 10) with 0 by (unfold Rdiv; ring). apply (toGrid_int 0).
  - intros x y Hxy. unfold powGrid. apply toGrid_mono.
    apply Rle_Rpower; lra.
  - unfold powGrid. rewrite Rpower_O by lra. apply (toGrid_int 1).
Qed.

(** The bin width of the reference configuration of the audio view (128
    filters, FFT size 2048, 44.1 kHz) does not round to zero. *)
Lemma toGrid_reference_width : 0 < toGrid (44100 / IZR 2048).
Proof.
  apply Rlt_le_trans with (toGrid 1).
  - rewrite (toGrid_int 1). lra.
  - apply toGrid_mono. lra.
Qed.



End MelRoundedFacts.

(** ** The filterbank construction over binary64 floats *)

Module MelFloatFacts.
Import Audio MelFloat.
Local Open Scope float_scope.

(** With the smallest positive sample rate the Nyquist frequency and the
    bin width both round to zero, every band edge is 0 Hz and every bin is
    [Math.floor(0 / 0)]. *)
Lemma createMelFilterbank_underflow (log10 : float -> float)
    (pow : float -> float -> float) :
  log10 1 = 0 -> pow 10 0 = 1 ->
  createMelFilterbank log10 pow 1 2 0x1p-1074 = [mkFilter nan nan nan].
Proof.
  intros Hl Hp. unfold createMelFilterbank, melFilterAt, hzToMel, melToHz.
  change (Z.to_nat 1) with 1%nat. cbn [seq map].
  change (0x1p-1074 / 2) with 0.
  change (1 + 0 / 700) with 1. rewrite Hl.
  change ((2595 * 0 - 2595 * 0) / ofZ (1 + 1)) with 0.
  change (2595 * 0 + ofZ (Z.of_nat 0) * 0) with 0.
  change (2595 * 0 + (ofZ (Z.of_nat 0) + 1) * 0) with 0.
  change (2595 * 0 + (ofZ (Z.of_nat 0) + 2) * 0) with 0.
  change (0 / 2595) with 0. rewrite Hp.
  reflexivity.
Qed.


End MelFloatFacts.

(** ** The filterbank application and the beat detector *)

Module AudioFacts.
Import Mel Audio.
Local Open Scope float_scope.

(** A frame whose every bin is 51 has energy 0.2, and a frame with a quarter
    of its bins at 255 has energy 0.5. *)
Example energy_of_frames :
  energy (snd (analyzeAudioFeatures beatDetector0 0 [51; 51; 51; 51] [])) = 0.2
  /\ energy (snd (analyzeAudioFeatures beatDetector0 0 [255; 0; 0; 0] [])) = 0.5.
Proof. split; vm_compute; reflexivity. Qed.


(** A filter that covers no bin of the frame yields 0. *)
Lemma filterStep_skip (fftData : list float) (filter : MelFilter)
    (bins : list Z) (acc : float * Z) :
  (forall bin, In bin bins -> (Z.of_nat (length fftData) <= bin)%Z) ->
  fold_left (filterStep fftData filter) bins acc = acc.
Proof.
  revert acc. induction bins as [|bin bins IH]; intros acc Hout; [reflexivity|].
  cbn [fold_left]. unfold filterStep at 2. destruct acc as [sum count].
  assert (Hb := Hout bin (or_introl eq_refl)).
  apply Z.ltb_ge in Hb. rewrite Hb. apply IH.
  intros b Hin. apply Hout. now right.
Qed.

Lemma melValue_no_bins (fftData : list float) (filter : MelFilter) :
  (Z.of_nat (length fftData) <= leftBin filter)%Z
  \/ (rightBin filter < leftBin filter)%Z ->
  melValue fftData filter = 0.
Proof.
  intros H. unfold melValue. rewrite filterStep_skip; [reflexivity|].
  intros bin Hin. unfold binsOf in Hin. apply in_map_iff in Hin as [k [<- Hk]].
  apply in_seq in Hk. lia.
Qed.

(** C6 at its failing input: on a degenerate filter (leftBin = centerBin =
    rightBin, here bin 0 of a one-bin frame) the weight is [0/0] and the
    mel-spectrum value is NaN, whatever the magnitude in the bin. *)
Lemma applyMelFilterbank_degenerate_nan :
  map PrimFloat.is_nan (applyMelFilterbank [10] [mkFilter 0 0 0]) = [true]
  /\ map PrimFloat.is_nan (applyMelFilterbank [0] [mkFilter 0 0 0]) = [true]
  /\ map PrimFloat.is_nan (applyMelFilterbank [10; 20; 30] [mkFilter 0 1 1]) = [true].
Proof. repeat split; vm_compute; reflexivity. Qed.



Lemma observe_history (bd : BeatDetector) (e : float) :
  (length (history bd) <= 43)%nat ->
  history (fst (observe bd e))
  = skipn (length (history bd ++ [e]) - 43) (history bd ++ [e])
  /\ (length (history (fst (observe bd e))) <= 43)%nat.
Proof.
  intros Hlen. unfold observe. cbn [fst history].
  assert (Hp : length (history bd ++ [e]) = S (length (history bd)))
    by (rewrite length_app; cbn; lia).
  destruct (Nat.ltb_spec 43 (length (history bd ++ [e]))) as [Hbig|Hsmall].
  - assert (E : (length (history bd ++ [e]) - 43 = 1)%nat) by lia.
    rewrite E. destruct (history bd ++ [e]) as [|x rest] eqn:Eh.
    + cbn in Hp. lia.
    + cbn [tl skipn]. split; [reflexivity|]. cbn [length] in Hp. lia.
  - assert (E : (length (history bd ++ [e]) - 43 = 0)%nat) by lia.
    rewrite E. cbn [skipn]. split; [reflexivity|lia].
Qed.

(** X17.  The energy history is a bounded window: starting from a history
    of at most 43 samples, after any sequence of samples the history holds
    the last 43 samples seen (all of them while fewer than 43 were seen), in
    order; it never grows past 43, and the threshold is unchanged. *)
Theorem detector_history_window (energies : list float) (bd : BeatDetector) :
  (length (history bd) <= 43)%nat ->
  let all := history bd ++ energies in
  history (detectorAfter bd energies) = skipn (length all - 43) all
  /\ (length (history (detectorAfter bd energies)) <= 43)%nat
  /\ threshold (detectorAfter bd energies) = threshold bd.
Proof.
  revert bd. induction energies as [|e rest IH]; intros bd Hlen all; subst all.
  - cbn [detectorAfter]. rewrite app_nil_r.
    replace (length (history bd) - 43)%nat with 0%nat by lia.
    now repeat split.
  - cbn [detectorAfter].
    destruct (observe_history bd e Hlen) as [Hh Hb].
    destruct (IH (fst (observe bd e)) Hb) as (H1 & H2 & H3).
    split; [|split; [exact H2 | exact H3]].
    rewrite H1, Hh.
    assert (Hp : length (history bd ++ [e]) = S (length (history bd)))
      by (rewrite length_app; cbn; lia).
    replace (history bd ++ e :: rest) with ((history bd ++ [e]) ++ rest)
      by (now rewrite <- app_assoc).
    destruct (Nat.le_gt_cases (length (history bd ++ [e])) 43) as [Hs|Hb'].
    + replace (length (history bd ++ [e]) - 43)%nat with 0%nat by lia.
      reflexivity.
    + replace (length (history bd ++ [e]) - 43)%nat with 1%nat by lia.
      destruct (history bd ++ [e]) as [|x h0] eqn:Eh; [cbn in Hp; lia|].
      cbn [skipn]. cbn [length] in Hp, Hb'.
      assert (H43 : length h0 = 43%nat) by lia.
      rewrite !length_app. cbn [length app]. rewrite H43.
      replace (S (43 + length rest) - 43)%nat with (S (length rest)) by lia.
      replace (43 + length rest - 43)%nat with (length rest) by lia.
      reflexivity.
Qed.

Lemma detector_history_window_fresh :
  let all := history beatDetector0 ++ repeat 0.5%float 50%nat in
  history (detectorAfter beatDetector0 (repeat 0.5%float 50%nat))
    = skipn (length all - 43) all
  /\ (length (history (detectorAfter beatDetector0 (repeat 0.5%float 50%nat))) <= 43)%nat
  /\ threshold (detectorAfter beatDetector0 (repeat 0.5%float 50%nat))
     = threshold beatDetector0.
Proof.
  apply (detector_history_window (repeat 0.5%float 50%nat) beatDetector0). cbn. lia.
Defined.

Lemma silentQuotients_all (n : nat) :
  (1 <= Z.of_nat n <= 16384)%Z -> silentQuotients n = true.
Proof.
  intros Hn.
  assert (Hall : forallb silentQuotients (seq 1 (Z.to_nat 16384)) = true)
    by (vm_compute; reflexivity).
  rewrite forallb_forall in Hall. apply Hall, in_seq. lia.
Qed.

Lemma silentMean_all (j : nat) : (1 <= j <= 43)%nat -> silentMean j = true.
Proof.
  intros Hj.
  assert (Hall : forallb silentMean (seq 1 43) = true)
    by (vm_compute; reflexivity).
  rewrite forallb_forall in Hall. apply Hall, in_seq. lia.
Qed.

Lemma sum_squares_silent (n : nat) :
  fold_left (fun e x => e + x * x) (repeat 0 n) 0 = 0.
Proof. induction n as [|n IH]; [reflexivity|exact IH]. Qed.

Lemma sum_silent_tail (n k : nat) :
  fold_left PrimFloat.add (skipn k (repeat 0 n)) 0 = 0.
Proof.
  revert k. induction n as [|n IH]; intros k.
  - now destruct k.
  - destruct k as [|k]; [|exact (IH k)].
    cbn [skipn repeat fold_left]. exact (IH 0%nat).
Qed.

Lemma centroidSums_silent (m : nat) (i : Z) (w : float) :
  snd (centroidSums (repeat 0 m) i (w, 0)) = 0.
Proof.
  revert i w. induction m as [|m IH]; intros i w; [reflexivity|].
  cbn [repeat centroidSums fst snd]. exact (IH _ _).
Qed.

Lemma dominantFrom_silent (m : nat) (i : Z) :
  dominantFrom (repeat 0 m) i (0%Z, 0) = (0%Z, 0).
Proof.
  revert i. induction m as [|m IH]; intros i; [reflexivity|].
  cbn [repeat dominantFrom snd]. exact (IH _).
Qed.

Lemma observe_silent (j : nat) (lb : float) :
  (j <= 43)%nat ->
  observe (silentDetector j lb) 0
  = (silentDetector (Nat.min (S j) 43) lb, false).
Proof.
  intros Hj. unfold observe, silentDetector. cbn [history threshold lastBeat].
  rewrite <- repeat_cons.
  change (0 :: repeat 0 j) with (repeat 0 (S j)).
  rewrite repeat_length.
  assert (Hkept : (if (43 <? S j)%nat then tl (repeat 0 (S j))
                   else repeat 0 (S j)) = repeat 0 (Nat.min (S j) 43)).
  { destruct (Nat.ltb_spec 43 (S j)).
    - replace (Nat.min (S j) 43) with j by lia. reflexivity.
    - replace (Nat.min (S j) 43) with (S j) by lia. reflexivity. }
  rewrite Hkept. f_equal.
  pose proof (silentMean_all (Nat.min (S j) 43) ltac:(lia)) as Hm.
  unfold silentMean in Hm. now apply negb_true_iff in Hm.
Qed.

(** X20.  Silence gives neutral features: for a frame of [n] zero
    magnitudes and a mel spectrum of [m] zeros (1 to 16384 bins each),
    analysed by a detector that has only seen silence, the energy, the
    brightness, the spectral centroid and the dominant frequency are all 0,
    no beat is reported, and the detector has seen one more sample of
    silence (at most 43 are kept). *)
Theorem analyzeAudioFeatures_silence (j n m : nat) (lb now : float) :
  (j <= 43)%nat -> (1 <= Z.of_nat n <= 16384)%Z ->
  (1 <= Z.of_nat m <= 16384)%Z ->
  analyzeAudioFeatures (silentDetector j lb) now (repeat 0 n) (repeat 0 m)
  = (silentDetector (Nat.min (S j) 43) lb,
     {| energy := 0; isBeat := false; brightness := 0;
        spectralCentroid := 0; dominantFreq := 0; timestamp := now |}).
Proof.
  intros Hj Hn Hm.
  pose proof (silentQuotients_all n Hn) as Qn.
  pose proof (silentQuotients_all m Hm) as Qm.
  unfold silentQuotients in Qn, Qm.
  apply andb_true_iff in Qn as [Qn Qn3]. apply andb_true_iff in Qn as [Qn1 Qn2].
  apply andb_true_iff in Qm as [_ Qm3].
  apply Leibniz.eqb_spec in Qn1, Qn2, Qm3.
  unfold analyzeAudioFeatures.
  rewrite !repeat_length, sum_squares_silent, sum_silent_tail, Qn1, Qn2.
  rewrite observe_silent by assumption.
  rewrite dominantFrom_silent, Qm3.
  pose proof (centroidSums_silent m 0 0) as Hc.
  destruct (centroidSums (repeat 0 m) 0 (0, 0)) as [w sum].
  cbn [snd] in Hc. subst sum. reflexivity.
Qed.

Lemma analyzeAudioFeatures_silence_reference :
  analyzeAudioFeatures (silentDetector 0 0) 0 (repeat 0 1024) (repeat 0 128)
  = (silentDetector (Nat.min 1 43) 0,
     {| energy := 0; isBeat := false; brightness := 0;
        spectralCentroid := 0; dominantFreq := 0; timestamp := 0 |}).
Proof.
  apply (analyzeAudioFeatures_silence 0 1024 128 0 0); lia.
Defined.

End AudioFacts.
